(** * sqlDatabase.h: query cursor, typed row accessors, batched inserts

    A shallow embedding of [src/mysql/sqlDatabase.h] (namespace [sql]).

    Conventions of the embedding.
    - A C string ([char *], possibly null) is an [option string]: [None] is
      the null pointer, [Some s] the NUL-terminated text [s].
    - A [MYSQL_ROW] ([char **]) is a [list (option string)], one entry per
      column; SQL NULL is the null pointer.
    - Fixed-width integers are [Z] with the wrap-around written out
      ([sint]/[uint]); the data model is LP64 ([int] 32 bits, [long] and
      [long long] 64 bits), and the width of [long] is a parameter of the
      [strtol] family so that the ILP32/LLP64 behaviour can be stated too.
    - A call either returns, throws one of the header's exceptions, or has
      undefined behaviour ([outcome]).
    - [std::map<std::string,int>] is a [gmap string Z]. *)

From Stdlib Require Import ZArith Lia Ascii String DecimalString.
From stdpp Require Import base option list strings gmap.

Local Open Scope Z_scope.

(** ** Outcomes of a call *)

(** [struct Exception] and its three derived structs.  A [QueryException]
    carries the inherited [message] and its own [errorMessage] and [err]. *)
Record QueryException := mkQueryException {
  qe_message : string;
  qe_errorMessage : string;
  qe_err : Z
}.

Inductive Exception : Type :=
| EQuery (e : QueryException)
| EField (message : string)
| EConnection (message : string).

Inductive outcome (A : Type) : Type :=
| Ret (a : A)
| Throw (e : Exception)
| Undefined.
Arguments Ret {A} a.
Arguments Throw {A} e.
Arguments Undefined {A}.

Definition bind {A B} (m : outcome A) (k : A -> outcome B) : outcome B :=
  match m with
  | Ret a => k a
  | Throw e => Throw e
  | Undefined => Undefined
  end.

Notation "'let*' x ':=' m 'in' k" := (bind m (fun x => k))
  (at level 10, x name, m at level 200, k at level 200).

(** ** The C library functions the header calls *)

Module CLib.

(** Two's-complement reading of the low [w] bits, and the unsigned one. *)
Definition uint (w z : Z) : Z := z mod 2 ^ w.
Definition sint (w z : Z) : Z :=
  let m := z mod 2 ^ w in if m <? 2 ^ (w - 1) then m else m - 2 ^ w.

Definition INT_MIN : Z := - 2 ^ 31.
Definition INT_MAX : Z := 2 ^ 31 - 1.

(** [isspace] in the "C" locale: space, and \t \n \v \f \r. *)
Definition isspace (c : ascii) : bool :=
  let n := Z.of_nat (nat_of_ascii c) in
  (n =? 32) || ((9 <=? n) && (n <=? 13)).

Fixpoint skip_space (s : string) : string :=
  match s with
  | String c s' => if isspace c then skip_space s' else s
  | EmptyString => s
  end.

(** Value of a digit character, letters standing for 10..35. *)
Definition digit_value (c : ascii) : option Z :=
  let n := Z.of_nat (nat_of_ascii c) in
  if (48 <=? n) && (n <=? 57) then Some (n - 48)
  else if (97 <=? n) && (n <=? 122) then Some (n - 87)
  else if (65 <=? n) && (n <=? 90) then Some (n - 55)
  else None.

Definition digit_in (base : Z) (c : ascii) : option Z :=
  match digit_value c with
  | Some d => if d <? base then Some d else None
  | None => None
  end.

Definition starts_with_digit (base : Z) (s : string) : bool :=
  match s with
  | String c _ => match digit_in base c with Some _ => true | None => false end
  | EmptyString => false
  end.

(** The longest run of digits of [base] at the head of [s], accumulated
    without bound, and what follows it. *)
Fixpoint read_digits (base : Z) (s : string) (acc : Z) : Z * string :=
  match s with
  | String c s' =>
      match digit_in base c with
      | Some d => read_digits base s' (acc * base + d)
      | None => (acc, s)
      end
  | EmptyString => (acc, s)
  end.

Definition read_sign (s : string) : bool * string :=
  match s with
  | String "-" s' => (true, s')
  | String "+" s' => (false, s')
  | _ => (false, s)
  end.

Definition is_x (c : ascii) : bool :=
  match c with
  | "x"%char | "X"%char => true
  | _ => false
  end.

(** Base selection of [strtol]: with base 0 a [0x]/[0X] prefix followed by
    a hexadecimal digit selects 16, any other leading [0] selects 8, and
    everything else 10; with base 16 the prefix is optional. *)
Definition select_base (base : Z) (s : string) : Z * string :=
  match s with
  | String "0" (String x s') =>
      if is_x x && starts_with_digit 16 s' && ((base =? 0) || (base =? 16))
      then (16, s')
      else if base =? 0 then (8, s) else (base, s)
  | String "0" EmptyString => if base =? 0 then (8, s) else (base, s)
  | _ => if base =? 0 then (10, s) else (base, s)
  end.

(** The subject sequence of the [strtol] family: white space, an optional
    sign, the digits.  [None] when there is no digit (no conversion). *)
Definition scan_integer (base : Z) (nptr : string)
  : option (bool * Z * string) :=
  let '(neg, s1) := read_sign (skip_space nptr) in
  let '(b, s2) := select_base base s1 in
  if starts_with_digit b s2
  then let '(m, rest) := read_digits b s2 0 in Some (neg, m, rest)
  else None.

(** [strtol] for a [long] of [w] bits: the value, clamped to
    [LONG_MIN .. LONG_MAX]; 0 when no conversion is performed. *)
Definition strtol_w (w : Z) (nptr : string) (base : Z) : Z :=
  match scan_integer base nptr with
  | None => 0
  | Some (neg, m, _) =>
      let v := if neg : bool then - m else m in
      if v <? - 2 ^ (w - 1) then - 2 ^ (w - 1)
      else if 2 ^ (w - 1) - 1 <? v then 2 ^ (w - 1) - 1
      else v
  end.

(** [strtoul] for an [unsigned long] of [w] bits: a magnitude above
    [ULONG_MAX] gives [ULONG_MAX]; otherwise a minus sign negates in the
    unsigned type. *)
Definition strtoul_w (w : Z) (nptr : string) (base : Z) : Z :=
  match scan_integer base nptr with
  | None => 0
  | Some (neg, m, _) =>
      if 2 ^ w - 1 <? m then 2 ^ w - 1
      else if neg : bool then uint w (- m) else m
  end.

Definition LONG_BITS : Z := 64.
Definition strtol : string -> Z -> Z := strtol_w LONG_BITS.
Definition strtoul : string -> Z -> Z := strtoul_w LONG_BITS.
Definition strtoll : string -> Z -> Z := strtol_w 64.
Definition strtoull : string -> Z -> Z := strtoul_w 64.

(** *** [sscanf] with the directives the header uses *)

Inductive directive : Type :=
| Conv_d                (* %d *)
| Lit (c : ascii)       (* an ordinary character *)
| Blank.                (* white space in the format *)

Inductive scan_result : Type :=
| Matched (v : Z) (rest : string)
| MatchFail
| InputFail.

(** [%d]: white space is skipped, then a decimal integer is read as by
    [strtol] with base 10 and stored through an [int *]. *)
Definition scan_d (s : string) : scan_result :=
  match skip_space s with
  | EmptyString => InputFail
  | s0 =>
      match scan_integer 10 s0 with
      | Some (neg, m, rest) =>
          let v := if neg : bool then - m else m in
          let l := if v <? - 2 ^ 63 then - 2 ^ 63
                   else if 2 ^ 63 - 1 <? v then 2 ^ 63 - 1 else v in
          Matched (sint 32 l) rest
      | None => MatchFail
      end
  end.

Definition EOF : Z := -1.

(** The number of input items assigned so far, or [EOF] when the input
    ends before the first conversion. *)
Definition scan_stop (input_failure : bool) (got : list Z) : Z * list Z :=
  match got with
  | [] => if input_failure then (EOF, got) else (0, got)
  | _ => (Z.of_nat (length got), got)
  end.

(** Runs the directives in order; the result is the return value of
    [sscanf] and the values assigned, in order. *)
Fixpoint run_format (fmt : list directive) (s : string) (got : list Z)
  : Z * list Z :=
  match fmt with
  | [] => scan_stop false got
  | Conv_d :: fmt' =>
      match scan_d s with
      | Matched v rest => run_format fmt' rest (got ++ [v])
      | MatchFail => scan_stop false got
      | InputFail => scan_stop true got
      end
  | Lit c :: fmt' =>
      match s with
      | String c' s' =>
          if Ascii.eqb c c' then run_format fmt' s' got
          else scan_stop false got
      | EmptyString => scan_stop true got
      end
  | Blank :: fmt' => run_format fmt' (skip_space s) got
  end.

Definition sscanf (s : string) (fmt : list directive) : Z * list Z :=
  run_format fmt s [].

(** *** [struct tm] and decimal output *)

Record tm := mk_tm {
  tm_sec : Z; tm_min : Z; tm_hour : Z; tm_mday : Z; tm_mon : Z;
  tm_year : Z; tm_wday : Z; tm_yday : Z; tm_isdst : Z
}.

(** [operator<<(std::ostream&, int)]: the decimal digits, with a leading
    minus sign for a negative value. *)
Definition print_int (z : Z) : string := NilZero.string_of_int (Z.to_int z).

Definition newline : string := String (ascii_of_nat 10) EmptyString.

End CLib.

Import CLib.

(** ** QueryException *)

(** What the constructor reads through a [MYSQL *]: [mysql_errno] (an
    [unsigned int]) and [mysql_error]. *)
Record MYSQL := mk_MYSQL {
  mysql_errno : Z;
  mysql_error : string
}.

(** [QueryException::QueryException(message, mysql = NULL, queryBuffer = NULL)].
    Without a handle [errorMessage] stays default-constructed (empty). *)
Definition QueryException_new (message : string) (mysql : option MYSQL)
    (queryBuffer : option string) : QueryException :=
  match mysql with
  | Some h =>
      let err := sint 32 (mysql_errno h) in
      let errorMessage := mysql_error h in
      let m1 := message +:+ newline in
      let m2 := m1 +:+ errorMessage in
      let m3 := m2 +:+ ". " in
      let m4 := m3 +:+ ((" (#" +:+ print_int err +:+ ")") +:+ newline) in
      let m5 := match queryBuffer with
                | Some q => m4 +:+ ("Original query: " +:+ q)
                | None => m4
                end in
      mkQueryException m5 errorMessage err
  | None => mkQueryException message "" (-1)
  end.

Definition getMessage (e : QueryException) : string := qe_message e.
Definition getErrorMessage (e : QueryException) : string := qe_errorMessage e.
Definition getErrno (e : QueryException) : Z := qe_err e.

(** ** Rows and queries *)

(** [MYSQL_ROW]: one nullable text per column. *)
Abbreviation MYSQL_ROW := (list (option string)).

(** The address of a [_Query] object; [std::shared_ptr<_Query>] and
    [std::weak_ptr<_Query>] are such addresses. *)
Abbreviation qref := nat.

(** [class _Query]: the field index ([sqlFieldSet]), the buffered records,
    the iterator [rowPosition] as an offset from [rows.begin()], the request
    text and the object's own weak pointer.  The server and result-set
    handles are external and left out. *)
Record _Query := mk_Query {
  fields : gmap string Z;
  rows : list MYSQL_ROW;
  rowPosition : nat;
  request : string;
  sPtr : qref
}.

(** [class Row]: the record and the shared pointer to the owning query. *)
Record Row := mk_Row {
  row : MYSQL_ROW;
  query : qref
}.

Module Query.

(** Modelled from the spec: [_Query::setupFields] is declared in the header
    and defined elsewhere.  "builds FieldIndex from returned column
    metadata": the name of column [i] is mapped to [i], for [i] from 0. *)
Fixpoint index_fields (names : list string) (i : Z) (m : gmap string Z)
  : gmap string Z :=
  match names with
  | [] => m
  | n :: names' => index_fields names' (i + 1) (<[n := i]> m)
  end.

(** Modelled from the spec: executing a statement (the bodies of
    [_Query::send] and [_Connection::sendQuery] are not in the header)
    "eagerly materializes all records into ResultBuffer, and builds
    FieldIndex from returned column metadata"; the cursor starts at the
    first record. *)
Definition execute (this : qref) (request : string) (names : list string)
    (records : list MYSQL_ROW) : _Query :=
  {| fields := index_fields names 0 ∅;
     rows := records;
     rowPosition := 0;
     request := request;
     sPtr := this |}.

(** Modelled from the spec: the body of [_Query::getIndexByField] is not in
    the header.  "performs the FieldIndex lookup and fails with a field
    error if the name is absent"; the text of the error is not specified,
    the model carries the field name. *)
Definition getIndexByField (q : _Query) (Field : string) : outcome Z :=
  match fields q !! Field with
  | Some i => Ret i
  | None => Throw (EField Field)
  end.

(** Modelled from the spec: [numRows], [hasNextRow],
    [resetRowQueue], [peekRow], [getRow] and [skipRow] are declared in the
    header and defined elsewhere.  "hasNextRow/getRow/skipRow advance a
    forward cursor; peekRow returns the current record without advancing;
    resetRowQueue rewinds to the start".  Reading at the end of the buffer
    dereferences the end iterator. *)
Definition numRows (q : _Query) : Z := Z.of_nat (length (rows q)).

Definition hasNextRow (q : _Query) : bool :=
  bool_decide (rowPosition q < length (rows q))%nat.

Definition advance (q : _Query) : _Query :=
  {| fields := fields q; rows := rows q; rowPosition := S (rowPosition q);
     request := request q; sPtr := sPtr q |}.

Definition resetRowQueue (q : _Query) : _Query :=
  {| fields := fields q; rows := rows q; rowPosition := 0;
     request := request q; sPtr := sPtr q |}.

Definition peekRow (q : _Query) : outcome (Row * _Query) :=
  match rows q !! rowPosition q with
  | Some r => Ret (mk_Row r (sPtr q), q)
  | None => Undefined
  end.

Definition getRow (q : _Query) : outcome (Row * _Query) :=
  match rows q !! rowPosition q with
  | Some r => Ret (mk_Row r (sPtr q), advance q)
  | None => Undefined
  end.

Definition skipRow (q : _Query) : outcome (unit * _Query) :=
  match rows q !! rowPosition q with
  | Some _ => Ret (tt, advance q)
  | None => Undefined
  end.

End Query.

Module RowImpl.

Section Accessors.

(** The live [_Query] objects, by address.  A [Row] whose query is not in
    the heap holds a null or dangling pointer. *)
Variable heap : gmap qref _Query.

(** [_Query::getFieldByIndex] is declared in the header and defined
    elsewhere; the accessors below only forward to it. *)
Variable Query_getFieldByIndex : _Query -> Z -> outcome string.

(** Floating-point values and their parsers are kept abstract: [sscanf_f]
    is [sscanf(s, "%f", &f)], [None] when nothing is converted, and [atof]
    is the C function on a non-null argument. *)
Variables (float double : Type).
Variable float_zero : float.
Variable sscanf_f : string -> option float.
Variable atof : string -> double.

(** [mktime], which depends on the time zone of the process. *)
Variable mktime : tm -> Z.

(** [row[i]]: reading outside the array is undefined. *)
Definition at_ (r : Row) (i : Z) : outcome (option string) :=
  if i <? 0 then Undefined
  else match row r !! Z.to_nat i with
       | Some f => Ret f
       | None => Undefined
       end.

(** Building a [std::string] from a [const char] pointer: a null pointer
    is undefined behaviour. *)
Definition to_std_string (p : option string) : outcome string :=
  match p with
  | Some s => Ret s
  | None => Undefined
  end.

(** [query->...]: dereferences the shared pointer. *)
Definition deref (r : Row) : outcome _Query :=
  match heap !! query r with
  | Some q => Ret q
  | None => Undefined
  end.

Definition isFieldNull (r : Row) (fieldIndex : Z) : outcome bool :=
  let* f := at_ r fieldIndex in
  Ret (match f with None => true | Some _ => false end).

Definition getIndexByField (r : Row) (fieldName : string) : outcome Z :=
  let* q := deref r in Query.getIndexByField q fieldName.


(** [operator[](const int)] and [operator[](const std::string &)]. *)
Definition subscript (r : Row) (fieldIndex : Z) : outcome string :=
  let* f := at_ r fieldIndex in to_std_string f.

Definition subscript_name (r : Row) (fieldName : string) : outcome string :=
  let* index := getIndexByField r fieldName in
  let* f := at_ r index in
  Ret (match f with Some s => s | None => "" end).

Definition getFieldByIndex (r : Row) (fieldIndex : Z) : outcome string :=
  let* f := at_ r fieldIndex in
  match f with
  | None => Ret "NULL"
  | Some _ => let* q := deref r in Query_getFieldByIndex q fieldIndex
  end.

(** Signed int retrieval *)
Definition getInt (r : Row) (i : Z) : outcome Z :=
  let* f := at_ r i in
  Ret (match f with None => 0 | Some s => sint 32 (strtol s 0) end).


Definition getNullableInt (r : Row) (i : Z) : outcome (option Z) :=
  let* f := at_ r i in
  match f with
  | None => Ret None
  | Some _ => let* v := getInt r i in Ret (Some v)
  end.


(** Unsigned int retrieval *)
Definition getUnsignedInt (r : Row) (i : Z) : outcome Z :=
  let* f := at_ r i in
  Ret (match f with None => 0 | Some s => uint 32 (strtoul s 0) end).


(** The field-name form returns [getNullableInt(getIndexByField(field))];
    the [std::optional<int>] is converted to [std::optional<unsigned int>]
    value by value. *)
Definition getNullableUnsignedInt_name (r : Row) (field : string)
  : outcome (option Z) :=
  let* i := getIndexByField r field in
  let* o := getNullableInt r i in
  Ret (uint 32 <$> o).

Definition getNullableUnsignedInt (r : Row) (i : Z) : outcome (option Z) :=
  let* f := at_ r i in
  match f with
  | None => Ret None
  | Some _ => let* v := getUnsignedInt r i in Ret (Some v)
  end.

(** Signed short retrieval *)
Definition getShort (r : Row) (i : Z) : outcome Z :=
  let* f := at_ r i in
  Ret (match f with None => 0 | Some s => sint 16 (strtol s 0) end).


Definition getNullableShort (r : Row) (i : Z) : outcome (option Z) :=
  let* f := at_ r i in
  match f with
  | None => Ret None
  | Some _ => let* v := getShort r i in Ret (Some v)
  end.


(** Unsigned short retrieval *)
Definition getUnsignedShort (r : Row) (i : Z) : outcome Z :=
  let* f := at_ r i in
  Ret (match f with None => 0 | Some s => uint 16 (strtoul s 0) end).


Definition getNullableUnsignedShort (r : Row) (i : Z) : outcome (option Z) :=
  let* f := at_ r i in
  match f with
  | None => Ret None
  | Some _ => let* v := getUnsignedShort r i in Ret (Some v)
  end.


(** Signed char retrieval.  [row[i][0]] of an empty text is its
    terminating NUL. *)
Definition first_char (s : string) : ascii :=
  match s with
  | String c _ => c
  | EmptyString => Ascii.zero
  end.

Definition getChar (r : Row) (i : Z) : outcome ascii :=
  let* f := at_ r i in
  Ret (match f with None => Ascii.zero | Some s => first_char s end).


(** [row[i] == nullptr ? getChar(i) : std::optional<char>()] *)
Definition getNullableChar (r : Row) (i : Z) : outcome (option ascii) :=
  let* f := at_ r i in
  match f with
  | None => let* c := getChar r i in Ret (Some c)
  | Some _ => Ret None
  end.


(** Signed long long retrieval *)
Definition getLongLong (r : Row) (i : Z) : outcome Z :=
  let* f := at_ r i in
  match f with
  | None => Ret 0
  | Some s => Ret (strtoll s 0)
  end.


Definition getNullableLongLong (r : Row) (i : Z) : outcome (option Z) :=
  let* f := at_ r i in
  match f with
  | None => Ret None
  | Some s => Ret (Some (strtoll s 0))
  end.


(** Unsigned long long retrieval *)
Definition getUnsignedLongLong (r : Row) (i : Z) : outcome Z :=
  let* f := at_ r i in
  match f with
  | None => Ret 0
  | Some s => Ret (strtoull s 0)
  end.


Definition getNullableUnsignedLongLong (r : Row) (i : Z)
  : outcome (option Z) :=
  let* f := at_ r i in
  match f with
  | None => Ret None
  | Some s => Ret (Some (strtoull s 0))
  end.


(** String retrieval: [return row[i];] builds the [std::string] from the
    pointer as it is. *)
Definition getString (r : Row) (i : Z) : outcome string :=
  let* f := at_ r i in to_std_string f.


Definition getNullableString (r : Row) (i : Z) : outcome (option string) :=
  let* f := at_ r i in
  match f with
  | None => Ret None
  | Some _ => let* s := to_std_string f in Ret (Some s)
  end.

Definition getNullableString_name (r : Row) (Field : string)
  : outcome (option string) :=
  let* i := getIndexByField r Field in getNullableString r i.

(** Signed float retrieval.  When [sscanf] converts nothing, [f] is
    returned uninitialised. *)
Definition getFloat (r : Row) (i : Z) : outcome float :=
  let* f := at_ r i in
  match f with
  | None => Ret float_zero
  | Some s =>
      match sscanf_f s with
      | Some x => Ret x
      | None => Undefined
      end
  end.


Definition getNullableFloat (r : Row) (i : Z) : outcome (option float) :=
  let* f := at_ r i in
  match f with
  | None => Ret None
  | Some _ => let* x := getFloat r i in Ret (Some x)
  end.


(** Signed double retrieval: [return atof(row[i]);], and [atof] reads
    through its argument. *)
Definition getDouble (r : Row) (i : Z) : outcome double :=
  let* f := at_ r i in
  match f with
  | Some s => Ret (atof s)
  | None => Undefined
  end.


Definition getNullableDouble (r : Row) (i : Z) : outcome (option double) :=
  let* f := at_ r i in
  match f with
  | None => Ret None
  | Some _ => let* x := getDouble r i in Ret (Some x)
  end.


(** Timestamp retrieval.  The format is ["%d-%d-%d %d:%d:%d"]; the six
    values go to [tm_year], [tm_mon], [tm_mday], [tm_hour], [tm_min] and
    [tm_sec] of a zeroed [tm] whose [tm_isdst] is -1.  The two decrements
    are [int] arithmetic. *)
Definition timestamp_format : list directive :=
  [Conv_d; Lit "-"; Conv_d; Lit "-"; Conv_d; Blank;
   Conv_d; Lit ":"; Conv_d; Lit ":"; Conv_d].

Definition getTimestamp (r : Row) (i : Z) : outcome Z :=
  let* f := at_ r i in
  match f with
  | None => Ret 0
  | Some s =>
      let '(n, vals) := sscanf s timestamp_format in
      if negb (n =? 6) then Ret 0
      else match vals with
           | [year; mon; mday; hour; min; sec] =>
               if (mon - 1 <? INT_MIN) || (year - 1900 <? INT_MIN)
               then Undefined
               else Ret (mktime {| tm_sec := sec; tm_min := min;
                                   tm_hour := hour; tm_mday := mday;
                                   tm_mon := mon - 1; tm_year := year - 1900;
                                   tm_wday := 0; tm_yday := 0;
                                   tm_isdst := -1 |})
           | _ => Ret 0
           end
  end.


Definition getNullableTimestamp (r : Row) (i : Z) : outcome (option Z) :=
  let* f := at_ r i in
  match f with
  | None => Ret None
  | Some _ => let* t := getTimestamp r i in Ret (Some t)
  end.


End Accessors.

End RowImpl.

(** ** BatchInsertStatement *)

(** The members declared in the header.  The counters are [unsigned int].
    [sql] is the text held by the [std::stringstream].  The connection is
    represented by the statements handed to it, oldest first. *)
Record BatchInsertStatement := mk_Batch {
  numberOfInserts : Z;
  insertsPerFlush : Z;
  numberOfFieldsLoaded : Z;
  tableName : string;
  header : string;
  sql : string;
  firstFieldThisEntry : bool;
  firstField : bool;
  hasStarted : bool;
  connection : list string
}.

Module Batch.

(** Modelled from the spec: the member functions of [BatchInsertStatement]
    are declared in the header and defined elsewhere.  The model follows
    sections 3, 4.3 and 7 of the specification and the emitted dialect of
    section 6, [INSERT [IGNORE] INTO table (c1,c2,...) VALUES
    (v1,v2,...),(v1,v2,...)]:
    - the states are Uninitialized, Started, the entry cycle and Closed;
    - [init] records the table and the threshold and opens the header
      (the declared members hold no flag for IGNORE, so it is written into
      the header text);
    - [addField] is legal only before [start] and appends one column name;
    - [start] is guarded by [hasStarted], closes the column list and
      completes the header;
    - [beginEntry] writes a comma before every tuple of the buffer but the
      first, then the opening parenthesis;
    - [addFieldValue] appends one rendered value, with a comma before every
      value of the entry but the first (the typed writers render and
      escape a value and then do the same; rendering is left out);
    - [endEntry] fails when the entry does not hold exactly the declared
      number of values; otherwise it closes the tuple, increments the
      completed-entry count and flushes when the count reaches the
      threshold;
    - [flush] hands header and buffered tuples to the connection, which may
      reject them with a query error, and clears only the tuple buffer: the
      counters, the header and the flags persist, and a rejected batch is
      not kept for another attempt;
    - [finish] flushes what remains in the buffer, if anything, and closes
      the statement; any use of a closed statement is a contract
      violation. *)

(** The declared members, and the contract state of section 4.3 for which
    the header declares no member: whether an entry is open, how many
    values it holds so far, and whether [finish] has closed the
    statement. *)
Record statement := mk_statement {
  members : BatchInsertStatement;
  entryOpen : bool;
  valuesThisEntry : Z;
  closed : bool
}.

(** A call completes, fails fast on a contract violation, or surfaces the
    query error of a rejected flush together with the state it leaves. *)
Inductive result : Type :=
| Done (s : statement)
| Violation
| QueryError (e : QueryException) (s : statement).






(** The members after [text] has been handed to the connection: only the
    tuple buffer is cleared. *)
Definition handed_over (m : BatchInsertStatement) (text : string)
  : BatchInsertStatement :=
  {| numberOfInserts := numberOfInserts m;
     insertsPerFlush := insertsPerFlush m;
     numberOfFieldsLoaded := numberOfFieldsLoaded m;
     tableName := tableName m;
     header := header m;
     sql := "";
     firstFieldThisEntry := firstFieldThisEntry m;
     firstField := firstField m;
     hasStarted := hasStarted m;
     connection := connection m ++ [text] |}.


(** Started and not closed. *)
Definition ready (s : statement) : bool :=
  hasStarted (members s) && negb (closed s).





Section Connection.

(** The connection: given the statements it has been handed so far and the
    next one, it accepts ([None]) or rejects with a query error. *)
Variable sendRawQuery : list string -> string -> option QueryException.

(** Hands header and buffer to the connection and clears the buffer,
    whether the connection accepts or not. *)
Definition transmit (s : statement) : result :=
  let m := members s in
  let text := header m +:+ sql m in
  let s' := {| members := handed_over m text;
               entryOpen := entryOpen s;
               valuesThisEntry := valuesThisEntry s;
               closed := closed s |} in
  match sendRawQuery (connection m) text with
  | None => Done s'
  | Some e => QueryError e s'
  end.

Definition flush (s : statement) : result :=
  if negb (ready s) || entryOpen s then Violation else transmit s.








End Connection.




(** A reading of "reaches" is admissible when a positive count below the
    threshold has not reached it and a count equal to it has.  Equality,
    "at least" and "a multiple of" are admissible readings. *)
Definition admissible (reaches : Z -> Z -> bool) : Prop :=
  (forall n t, 0 < n < t -> reaches n t = false)
  /\ (forall t, reaches t t = true).

End Batch.

(** ** Sample data *)

Module Sample.

(** A query with the columns [a] and [b] and one record whose [b] is NULL,
    living at address 0, and the row view of that record. *)
Definition query_ab : _Query :=
  Query.execute 0 "SELECT a, b FROM t" ["a"; "b"] [[Some "x"; None]].

Definition heap_ab : gmap qref _Query := {[ 0%nat := query_ab ]}.

Definition row_ab : Row := mk_Row [Some "x"; None] 0.

(** A one-column query over [n], with the text of 2^63 in its record. *)
Definition query_n : _Query :=
  Query.execute 0 "SELECT n FROM t" ["n"] [[Some "9223372036854775808"]].

Definition heap_n : gmap qref _Query := {[ 0%nat := query_n ]}.

Definition row_n : Row := mk_Row [Some "9223372036854775808"] 0.

(** A record with a malformed timestamp and a NULL. *)
Definition row_bad : Row := mk_Row [Some "bad"; None] 0.

(** A query with the columns [n] and [m]: a negative number wider than 32
    bits, and a NULL. *)
Definition query_wide : _Query :=
  Query.execute 0 "SELECT n, m FROM t" ["n"; "m"]
    [[Some "-4294967301"; None]].

Definition heap_wide : gmap qref _Query := {[ 0%nat := query_wide ]}.

Definition row_wide : Row := mk_Row [Some "-4294967301"; None] 0.

(** A query in which two columns carry the same name. *)
Definition query_dup : _Query :=
  Query.execute 0 "SELECT a.id, b.id FROM a JOIN b" ["id"; "id"] [].



End Sample.

(** ** Texts made of digits *)

Module Digits.

(** Every character of [s] is a digit of [base]. *)
Fixpoint all_digits (base : Z) (s : string) : bool :=
  match s with
  | EmptyString => true
  | String c s' =>
      match digit_in base c with
      | Some _ => all_digits base s'
      | None => false
      end
  end.

(** A non-empty run of digits of [base]. *)
Definition is_number (base : Z) (s : string) : bool :=
  starts_with_digit base s && all_digits base s.

Definition leading_zero (s : string) : bool :=
  match s with
  | String "0" _ => true
  | _ => false
  end.

(** The number a run of digits denotes, by position. *)
Fixpoint digits_value (base : Z) (s : string) : Z :=
  match s with
  | EmptyString => 0
  | String c s' =>
      match digit_value c with
      | Some d => d * base ^ Z.of_nat (String.length s') + digits_value base s'
      | None => digits_value base s'
      end
  end.

(** A decimal number that fits [int]. *)
Definition int_field (s : string) : bool :=
  is_number 10 s && (digits_value 10 s <=? INT_MAX).

End Digits.

(** ** Row: the allocation counters *)

Module RowStats.

(** The static members [Row::numberOfAllocations] and
    [Row::numberOfDeallocations], both [int]. *)
Record counters := mk_counters {
  numberOfAllocations : Z;
  numberOfDeallocations : Z
}.

Definition getNumberOfAllocations (c : counters) : Z :=
  numberOfAllocations c.

Definition getNumberOfDeallocations (c : counters) : Z :=
  numberOfDeallocations c.

(** [numberOfAllocations-numberOfDeallocations] in [int]. *)
Definition getRemainder (c : counters) : outcome Z :=
  let d := numberOfAllocations c - numberOfDeallocations c in
  if (d <? INT_MIN) || (INT_MAX <? d) then Undefined else Ret d.

(** [++n] on an [int]: overflow is undefined. *)
Definition increment (n : Z) : outcome Z :=
  if INT_MAX <=? n then Undefined else Ret (n + 1).

(** What the three constructors and the destructor do to the counters. *)
Inductive event : Type :=
| Default_constructed       (* Row() *)
| Copy_constructed          (* Row(const Row &) *)
| Bound_constructed         (* Row(std::weak_ptr<_Query>, MYSQL_ROW) *)
| Destroyed.                (* ~Row() *)

Definition is_construction (e : event) : bool :=
  match e with
  | Destroyed => false
  | _ => true
  end.

Definition step (c : counters) (e : event) : outcome counters :=
  if is_construction e
  then let* a := increment (numberOfAllocations c) in
       Ret (mk_counters a (numberOfDeallocations c))
  else let* d := increment (numberOfDeallocations c) in
       Ret (mk_counters (numberOfAllocations c) d).

Fixpoint run (c : counters) (events : list event) : outcome counters :=
  match events with
  | [] => Ret c
  | e :: events' => let* c' := step c e in run c' events'
  end.

(** How many rows a trace constructs, and how many it destroys. *)
Fixpoint constructions (events : list event) : Z :=
  match events with
  | [] => 0
  | e :: events' =>
      (if is_construction e then 1 else 0) + constructions events'
  end.

Fixpoint destructions (events : list event) : Z :=
  match events with
  | [] => 0
  | e :: events' =>
      (if is_construction e then 0 else 1) + destructions events'
  end.

End RowStats.

(** * Properties *)

(** ** Strings *)

Lemma append_assoc (a b c : string) : (a +:+ b) +:+ c = a +:+ (b +:+ c).
Proof.
  induction a as [|ch a IH]; [reflexivity|].
  change (String ch ((a +:+ b) +:+ c) = String ch (a +:+ (b +:+ c))).
  now rewrite IH.
Qed.

Lemma append_empty_r (a : string) : a +:+ "" = a.
Proof.
  induction a as [|ch a IH]; [reflexivity|].
  change (String ch (a +:+ "") = String ch a).
  now rewrite IH.
Qed.

(** ** QueryException *)

(** C10.  A [QueryException] built without a server handle stores the error
    number -1 and an empty server error text.  Built with a handle, it
    stores the handle's error number and text, and its message is the given
    message followed by a suffix made of, in this order, a line break, the
    server error text, [". "], [" (#"] the error number [")"], a line break
    and, when a statement text is supplied, ["Original query: "] and that
    text. *)
Theorem QueryException_new_fields :
  (forall message queryBuffer,
      let e := QueryException_new message None queryBuffer in
      getErrno e = -1 /\ getErrorMessage e = "" /\ getMessage e = message)
  /\
  (forall message h queryBuffer,
      let e := QueryException_new message (Some h) queryBuffer in
      getErrno e = sint 32 (mysql_errno h)
      /\ getErrorMessage e = mysql_error h
      /\ getMessage e =
           message +:+
           (newline +:+ mysql_error h +:+ ". " +:+ " (#"
            +:+ print_int (getErrno e) +:+ ")" +:+ newline
            +:+ match queryBuffer with
                | Some q => "Original query: " +:+ q
                | None => ""
                end)).
Proof.
  split.
  - intros message queryBuffer. cbn. auto.
  - intros message h queryBuffer.
    unfold QueryException_new, getErrno, getErrorMessage, getMessage.
    cbn [qe_err qe_errorMessage qe_message].
    split; [reflexivity|]. split; [reflexivity|].
    destruct queryBuffer as [q|];
      repeat rewrite append_assoc; [reflexivity|].
    now rewrite append_empty_r.
Qed.

(** ** Row: reading a column *)

Import RowImpl.

Lemma at_valid (r : Row) (i : Z) (f : option string) :
  0 <= i -> row r !! Z.to_nat i = Some f -> at_ r i = Ret f.
Proof.
  intros Hi Hf. unfold at_.
  destruct (Z.ltb_spec i 0) as [Hneg|_]; [lia|].
  now rewrite Hf.
Qed.

Lemma at_invalid (r : Row) (i : Z) :
  i < 0 \/ (length (row r) <= Z.to_nat i)%nat -> at_ r i = Undefined.
Proof.
  intros H. unfold at_.
  destruct (Z.ltb_spec i 0) as [Hneg|Hpos]; [reflexivity|].
  destruct H as [H|H]; [lia|].
  now rewrite (proj2 (lookup_ge_None (row r) (Z.to_nat i)) H).
Qed.

Lemma getIndexByField_deref heap (r : Row) (q : _Query) (f : string) :
  heap !! query r = Some q ->
  getIndexByField heap r f = Query.getIndexByField q f.
Proof.
  intros Hq. unfold getIndexByField, deref. now rewrite Hq.
Qed.

(** C8.  At a valid column index whose value is SQL NULL,
    [Row::getFieldByIndex] returns the literal text ["NULL"] and does not
    consult the query; at a non-null column it forwards to
    [_Query::getFieldByIndex]. *)
Theorem getFieldByIndex_null heap Query_getFieldByIndex (r : Row) (i : Z) :
  0 <= i ->
  (row r !! Z.to_nat i = Some None ->
   getFieldByIndex heap Query_getFieldByIndex r i = Ret "NULL")
  /\
  (forall s q, row r !! Z.to_nat i = Some (Some s) ->
               heap !! query r = Some q ->
               getFieldByIndex heap Query_getFieldByIndex r i
               = Query_getFieldByIndex q i).
Proof.
  intros Hi. split.
  - intros Hnull. unfold getFieldByIndex.
    now rewrite (at_valid r i None Hi Hnull).
  - intros s q Hs Hq. unfold getFieldByIndex, deref.
    rewrite (at_valid r i (Some s) Hi Hs). cbn. now rewrite Hq.
Qed.

Lemma getFieldByIndex_null_witness :
  getFieldByIndex Sample.heap_ab (fun _ _ => Ret "text") Sample.row_ab 1
  = Ret "NULL".
Proof.
  apply (getFieldByIndex_null Sample.heap_ab (fun _ _ => Ret "text")
           Sample.row_ab 1); [lia | reflexivity].
Defined.

(** C9.  For a field name that the owning query maps to a valid column:
    on SQL NULL the subscript by name returns the empty string, while the
    subscript by the corresponding index builds the string from the null
    pointer unguarded; on a non-null value both return the buffered text. *)
Theorem subscript_by_name_vs_index heap (r : Row) (q : _Query)
    (f : string) (i : Z) :
  heap !! query r = Some q ->
  fields q !! f = Some i ->
  0 <= i ->
  (row r !! Z.to_nat i = Some None ->
   subscript_name heap r f = Ret "" /\ subscript r i = Undefined)
  /\
  (forall s, row r !! Z.to_nat i = Some (Some s) ->
             subscript_name heap r f = Ret s /\ subscript r i = Ret s).
Proof.
  intros Hq Hf Hi.
  assert (Hidx : getIndexByField heap r f = Ret i).
  { rewrite (getIndexByField_deref heap r q f Hq).
    unfold Query.getIndexByField. now rewrite Hf. }
  split.
  - intros Hnull. unfold subscript_name, subscript.
    rewrite Hidx. cbn. now rewrite (at_valid r i None Hi Hnull).
  - intros s Hs. unfold subscript_name, subscript.
    rewrite Hidx. cbn. now rewrite (at_valid r i (Some s) Hi Hs).
Qed.

Lemma subscript_by_name_vs_index_witness :
  (subscript_name Sample.heap_ab Sample.row_ab "b" = Ret ""
   /\ subscript Sample.row_ab 1 = Undefined)
  /\ (subscript_name Sample.heap_ab Sample.row_ab "a" = Ret "x"
      /\ subscript Sample.row_ab 0 = Ret "x").
Proof.
  split.
  - apply (proj1 (subscript_by_name_vs_index Sample.heap_ab Sample.row_ab
                    Sample.query_ab "b" 1
                    ltac:(reflexivity) ltac:(reflexivity) ltac:(lia)));
      reflexivity.
  - apply (proj2 (subscript_by_name_vs_index Sample.heap_ab Sample.row_ab
                    Sample.query_ab "a" 0
                    ltac:(reflexivity) ltac:(reflexivity) ltac:(lia)));
      reflexivity.
Defined.

(** ** Row: the non-nullable accessors on SQL NULL *)

(** The nine accessors that test the pointer return their defaults. *)
Lemma guarded_accessors_null (float : Type) (float_zero : float)
    (sscanf_f : string -> option float) (mktime : tm -> Z)
    (r : Row) (i : Z) :
  0 <= i -> row r !! Z.to_nat i = Some None ->
  getInt r i = Ret 0 /\ getUnsignedInt r i = Ret 0
  /\ getShort r i = Ret 0 /\ getUnsignedShort r i = Ret 0
  /\ getChar r i = Ret Ascii.zero
  /\ getLongLong r i = Ret 0 /\ getUnsignedLongLong r i = Ret 0
  /\ getFloat float float_zero sscanf_f r i = Ret float_zero
  /\ getTimestamp mktime r i = Ret 0.
Proof.
  intros Hi Hnull.
  unfold getInt, getUnsignedInt, getShort, getUnsignedShort, getChar,
    getLongLong, getUnsignedLongLong, getFloat, getTimestamp.
  rewrite (at_valid r i None Hi Hnull). cbn. repeat split.
Qed.

(** [getString] and [getDouble] pass the null pointer on. *)
Lemma unguarded_accessors_null (double : Type) (atof : string -> double)
    (r : Row) (i : Z) :
  0 <= i -> row r !! Z.to_nat i = Some None ->
  getString r i = Undefined /\ getDouble double atof r i = Undefined.
Proof.
  intros Hi Hnull. unfold getString, getDouble.
  rewrite (at_valid r i None Hi Hnull). cbn. split; reflexivity.
Qed.

(** C1.  The claim asks every non-nullable accessor for its default on SQL
    NULL.  At column 1 of the sample record, which is NULL, [getString] and
    [getDouble] have no defined result (the null pointer reaches the
    [std::string] constructor and [atof]), while [getInt] at the same
    column returns 0 and the nullable forms return absent. *)
Theorem getString_getDouble_null_undefined :
  getString Sample.row_ab 1 = Undefined
  /\ (forall (double : Type) (atof : string -> double),
        getDouble double atof Sample.row_ab 1 = Undefined
        /\ getNullableDouble double atof Sample.row_ab 1 = Ret None)
  /\ getNullableString Sample.row_ab 1 = Ret None
  /\ getInt Sample.row_ab 1 = Ret 0.
Proof.
  repeat split.
Qed.

(** ** Row: the nullable character accessor *)

(** The branches of [getNullableChar] as written. *)
Lemma getNullableChar_branches (r : Row) (i : Z) :
  0 <= i ->
  (row r !! Z.to_nat i = Some None ->
   getNullableChar r i = Ret (Some Ascii.zero))
  /\
  (forall s, row r !! Z.to_nat i = Some (Some s) ->
             getNullableChar r i = Ret None
             /\ getChar r i = Ret (first_char s)).
Proof.
  intros Hi. split.
  - intros Hnull. unfold getNullableChar, getChar.
    now rewrite (at_valid r i None Hi Hnull).
  - intros s Hs. unfold getNullableChar, getChar.
    now rewrite (at_valid r i (Some s) Hi Hs).
Qed.

(** C2.  The claim asks for absent on SQL NULL and the character otherwise.
    On the sample record, column 0 holds the text ["x"]: [getChar] returns
    ['x'] but [getNullableChar] returns absent; column 1 is NULL and
    [getNullableChar] returns a present NUL character. *)
Theorem getNullableChar_inverted :
  getChar Sample.row_ab 0 = Ret "x"%char
  /\ getNullableChar Sample.row_ab 0 = Ret None
  /\ getNullableChar Sample.row_ab 1 = Ret (Some Ascii.zero).
Proof.
  repeat split.
Qed.

(** ** Row: the two forms of the nullable unsigned accessor *)

Lemma uint_sint_32 (z : Z) : uint 32 (sint 32 z) = uint 32 z.
Proof.
  unfold uint, sint. cbv zeta.
  destruct (z mod 2 ^ 32 <? 2 ^ (32 - 1)).
  - apply Z.mod_mod. lia.
  - replace (z mod 2 ^ 32 - 2 ^ 32) with (z mod 2 ^ 32 + (-1) * 2 ^ 32) by lia.
    rewrite Z.mod_add by lia. apply Z.mod_mod. lia.
Qed.

Lemma uint_32_64 (z : Z) : uint 32 (uint 64 z) = uint 32 z.
Proof.
  unfold uint. apply Z.mod_mod_divide.
  exists (2 ^ 32). reflexivity.
Qed.

(** As long as [strtol] does not saturate, the signed parse read back as
    unsigned is the unsigned parse. *)
Lemma strtol_strtoul_low_bits (s : string) :
  - 2 ^ 63 < strtol s 0 < 2 ^ 63 - 1 ->
  uint 32 (sint 32 (strtol s 0)) = uint 32 (strtoul s 0).
Proof.
  rewrite uint_sint_32.
  unfold strtol, strtoul, strtol_w, strtoul_w, LONG_BITS.
  destruct (scan_integer 0 s) as [[[neg m] rest]|]; [|reflexivity].
  change (2 ^ (64 - 1)) with (2 ^ 63). cbv zeta.
  destruct neg.
  - destruct (Z.ltb_spec (- m) (- 2 ^ 63)); [lia|].
    destruct (Z.ltb_spec (2 ^ 63 - 1) (- m)); [lia|].
    intros Hrange.
    destruct (Z.ltb_spec (2 ^ 64 - 1) m); [lia|].
    now rewrite uint_32_64.
  - destruct (Z.ltb_spec m (- 2 ^ 63)); [lia|].
    destruct (Z.ltb_spec (2 ^ 63 - 1) m); [lia|].
    intros Hrange.
    destruct (Z.ltb_spec (2 ^ 64 - 1) m); [lia|].
    reflexivity.
Qed.

(** The two forms agree on SQL NULL and on every text on which [strtol]
    does not saturate. *)
Lemma getNullableUnsignedInt_forms_agree heap (r : Row) (q : _Query)
    (f : string) (i : Z) :
  heap !! query r = Some q ->
  fields q !! f = Some i ->
  0 <= i ->
  (row r !! Z.to_nat i = Some None ->
   getNullableUnsignedInt_name heap r f = Ret None
   /\ getNullableUnsignedInt r i = Ret None)
  /\
  (forall s, row r !! Z.to_nat i = Some (Some s) ->
             - 2 ^ 63 < strtol s 0 < 2 ^ 63 - 1 ->
             getNullableUnsignedInt_name heap r f
             = getNullableUnsignedInt r i).
Proof.
  intros Hq Hf Hi.
  assert (Hidx : getIndexByField heap r f = Ret i).
  { rewrite (getIndexByField_deref heap r q f Hq).
    unfold Query.getIndexByField. now rewrite Hf. }
  split.
  - intros Hnull.
    unfold getNullableUnsignedInt_name, getNullableUnsignedInt,
      getNullableInt.
    rewrite Hidx. cbn. now rewrite (at_valid r i None Hi Hnull).
  - intros s Hs Hrange.
    unfold getNullableUnsignedInt_name, getNullableUnsignedInt,
      getNullableInt, getInt, getUnsignedInt.
    rewrite Hidx. cbn. rewrite (at_valid r i (Some s) Hi Hs). cbn.
    now rewrite (strtol_strtoul_low_bits s Hrange).
Qed.

(** C3.  The claim asks the field-name form and the index form of
    [getNullableUnsignedInt] to agree.  The field-name form goes through
    [getNullableInt]: on the sample query, whose column [n] is column 0 and
    holds the text of 2^63, [strtol] saturates at [LONG_MAX] and the
    field-name form returns 4294967295, while the index form parses with
    [strtoul] and returns 0. *)
Theorem getNullableUnsignedInt_forms_differ :
  getIndexByField Sample.heap_n Sample.row_n "n" = Ret 0
  /\ getNullableUnsignedInt_name Sample.heap_n Sample.row_n "n"
     = Ret (Some 4294967295)
  /\ getNullableUnsignedInt Sample.row_n 0 = Ret (Some 0).
Proof.
  repeat split.
Qed.

(** With a [long] of 32 bits the two parses already differ on a value
    that fits [unsigned int]. *)
Lemma strtol_strtoul_32_differ :
  uint 32 (sint 32 (strtol_w 32 "3000000000" 0)) = 2147483647
  /\ uint 32 (strtoul_w 32 "3000000000" 0) = 3000000000.
Proof.
  split; reflexivity.
Qed.

(** ** Row: timestamps *)

(** A text on which [sscanf] assigns fewer than six values gives 0, and a
    present 0 from the nullable accessor. *)
Lemma getTimestamp_unmatched (mktime : tm -> Z) (r : Row) (i : Z)
    (s : string) :
  0 <= i -> row r !! Z.to_nat i = Some (Some s) ->
  fst (sscanf s timestamp_format) <> 6 ->
  getTimestamp mktime r i = Ret 0.
Proof.
  intros Hi Hs Hn. unfold getTimestamp.
  rewrite (at_valid r i (Some s) Hi Hs). cbn [bind].
  destruct (sscanf s timestamp_format) as [n vals]. cbn [fst] in Hn.
  destruct (Z.eqb_spec n 6) as [Heq|_]; [contradiction|reflexivity].
Qed.

(** C4, as stated, fails: the record whose column 0 holds ["bad"] is a
    valid column with a text that does not match the pattern, and
    [getNullableTimestamp] does not return absent there. *)
Lemma getNullableTimestamp_malformed_not_absent :
  ~ (forall (mktime : tm -> Z) (r : Row) (i : Z) (s : string),
        0 <= i -> row r !! Z.to_nat i = Some (Some s) ->
        fst (sscanf s timestamp_format) <> 6 ->
        getTimestamp mktime r i = Ret 0
        /\ getNullableTimestamp mktime r i = Ret None).
Proof.
  intros H.
  destruct (H (fun _ => 0) Sample.row_bad 0 "bad") as [_ Habs];
    [lia | reflexivity | discriminate |].
  discriminate Habs.
Qed.

(** C4, amended.  At a valid column whose text does not yield six values
    under ["%d-%d-%d %d:%d:%d"] (["bad"] is such a text), [getTimestamp]
    returns epoch-zero and [getNullableTimestamp] returns a present
    epoch-zero; at a valid column that is SQL NULL, [getTimestamp] returns
    epoch-zero and [getNullableTimestamp] returns absent. *)
Theorem getTimestamp_malformed_or_null (mktime : tm -> Z) (r : Row) (i : Z) :
  0 <= i ->
  (forall s, row r !! Z.to_nat i = Some (Some s) ->
             fst (sscanf s timestamp_format) <> 6 ->
             getTimestamp mktime r i = Ret 0
             /\ getNullableTimestamp mktime r i = Ret (Some 0))
  /\
  (row r !! Z.to_nat i = Some None ->
   getTimestamp mktime r i = Ret 0
   /\ getNullableTimestamp mktime r i = Ret None)
  /\ fst (sscanf "bad" timestamp_format) <> 6.
Proof.
  intros Hi. split; [|split].
  - intros s Hs Hn.
    pose proof (getTimestamp_unmatched mktime r i s Hi Hs Hn) as Ht.
    split; [exact Ht|].
    unfold getNullableTimestamp.
    rewrite (at_valid r i (Some s) Hi Hs). cbn [bind]. now rewrite Ht.
  - intros Hnull. unfold getNullableTimestamp, getTimestamp.
    now rewrite (at_valid r i None Hi Hnull).
  - discriminate.
Qed.

Lemma getTimestamp_malformed_or_null_witness :
  (getTimestamp (fun _ => 0) Sample.row_bad 0 = Ret 0
   /\ getNullableTimestamp (fun _ => 0) Sample.row_bad 0 = Ret (Some 0))
  /\ (getTimestamp (fun _ => 0) Sample.row_bad 1 = Ret 0
      /\ getNullableTimestamp (fun _ => 0) Sample.row_bad 1 = Ret None).
Proof.
  split.
  - apply (proj1 (getTimestamp_malformed_or_null (fun _ => 0)
                    Sample.row_bad 0 ltac:(lia)) "bad");
      [reflexivity | discriminate].
  - apply (proj1 (proj2 (getTimestamp_malformed_or_null (fun _ => 0)
                           Sample.row_bad 1 ltac:(lia))));
      reflexivity.
Defined.

(** The scan is permissive: single digits, extra white space and trailing
    text still give six values. *)
Lemma sscanf_timestamp_permissive :
  sscanf "2007-01-26 10:00:00" timestamp_format
  = (6, [2007; 1; 26; 10; 0; 0])
  /\ sscanf " 2007-1-26   10:0:0 and more" timestamp_format
     = (6, [2007; 1; 26; 10; 0; 0]).
Proof.
  split; reflexivity.
Qed.

(** ** Query: the field index *)

Lemma index_fields_absent (names : list string) (i : Z)
    (m : gmap string Z) (f : string) :
  f ∉ names -> Query.index_fields names i m !! f = m !! f.
Proof.
  revert i m. induction names as [|n names IH]; intros i m Hf.
  - reflexivity.
  - cbn [Query.index_fields]. rewrite IH.
    + apply lookup_insert_ne. intros ->. apply Hf. left.
    + intros Hin. apply Hf. now right.
Qed.

(** A declared name is mapped to a position at which it is declared (the
    last one, since later columns overwrite earlier ones). *)
Lemma index_fields_present (names : list string) (i : Z)
    (m : gmap string Z) (f : string) :
  f ∈ names ->
  exists k : nat, names !! k = Some f
                  /\ Query.index_fields names i m !! f = Some (i + Z.of_nat k).
Proof.
  revert i m. induction names as [|n names IH]; intros i m Hf.
  - inversion Hf.
  - cbn [Query.index_fields].
    destruct (decide (f ∈ names)) as [Hin|Hout].
    + destruct (IH (i + 1) (<[n:=i]> m) Hin) as [k [Hk Hlook]].
      exists (S k). split; [exact Hk|].
      rewrite Hlook. f_equal. lia.
    + assert (f = n) as ->.
      { apply elem_of_cons in Hf as [Heq|Hin]; [exact Heq|contradiction]. }
      exists 0%nat. split; [reflexivity|].
      rewrite (index_fields_absent names (i + 1) _ n Hout).
      rewrite lookup_insert_eq. f_equal. lia.
Qed.

Lemma execute_lookup_sound this request (names : list string) records
    (f : string) (v : Z) :
  Query.getIndexByField (Query.execute this request names records) f = Ret v ->
  exists k : nat, names !! k = Some f /\ v = Z.of_nat k.
Proof.
  unfold Query.getIndexByField, Query.execute. cbn [fields].
  destruct (decide (f ∈ names)) as [Hin|Hout].
  - destruct (index_fields_present names 0 ∅ f Hin) as [k [Hk Hlook]].
    rewrite Hlook. intros [= <-]. exists k. split; [exact Hk|lia].
  - rewrite (index_fields_absent names 0 ∅ f Hout), lookup_empty.
    discriminate.
Qed.

(** C6, as stated, fails: when two columns carry the same name, no lookup
    by name can return the position of each of them. *)
Lemma getIndexByField_duplicate_names :
  ~ (forall (k : nat) (f : string),
        ["id"; "id"] !! k = Some f ->
        Query.getIndexByField Sample.query_dup f = Ret (Z.of_nat k)).
Proof.
  intros H.
  pose proof (H 0%nat "id" eq_refl) as H0.
  discriminate H0.
Qed.

(** C6, amended.  Let the query be built from the column names [names] and
    let [r] be a row of it.  A name that is not declared makes
    [getIndexByField] fail with a [FieldException], on the query and on the
    row alike.  A declared name is mapped to a position at which a column of
    that name is declared; the lookup never returns anything else, and
    distinct names get distinct positions.  When the declared names are
    pairwise distinct, each name gets exactly its column's position, so the
    lookup is a bijection between the names and the positions
    [0 .. length names - 1]. *)
Theorem getIndexByField_declared_names heap this request
    (names : list string) records (q : _Query) (r : Row) :
  q = Query.execute this request names records ->
  heap !! query r = Some q ->
  (forall f, getIndexByField heap r f = Query.getIndexByField q f)
  /\ (forall f, f ∉ names ->
                exists message,
                  Query.getIndexByField q f = Throw (EField message))
  /\ (forall f, f ∈ names ->
                exists k : nat, names !! k = Some f
                  /\ Query.getIndexByField q f = Ret (Z.of_nat k))
  /\ (forall f v, Query.getIndexByField q f = Ret v ->
                  exists k : nat, names !! k = Some f /\ v = Z.of_nat k)
  /\ (forall f1 f2 v, Query.getIndexByField q f1 = Ret v ->
                      Query.getIndexByField q f2 = Ret v -> f1 = f2)
  /\ (NoDup names ->
      forall (k : nat) f, names !! k = Some f ->
                          Query.getIndexByField q f = Ret (Z.of_nat k)).
Proof.
  intros -> Hq.
  split; [|split; [|split; [|split; [|split]]]].
  - intros f. now apply getIndexByField_deref.
  - intros f Hout. exists f.
    unfold Query.getIndexByField, Query.execute. cbn [fields].
    now rewrite (index_fields_absent names 0 ∅ f Hout), lookup_empty.
  - intros f Hin.
    destruct (index_fields_present names 0 ∅ f Hin) as [k [Hk Hlook]].
    exists k. split; [exact Hk|].
    unfold Query.getIndexByField, Query.execute. cbn [fields].
    rewrite Hlook. f_equal.
  - intros f v. apply execute_lookup_sound.
  - intros f1 f2 v H1 H2.
    apply execute_lookup_sound in H1 as [k1 [Hk1 ->]].
    apply execute_lookup_sound in H2 as [k2 [Hk2 Heq]].
    assert (k1 = k2) as -> by lia. congruence.
  - intros Hnd k f Hk.
    assert (Hin : f ∈ names) by (eapply list_elem_of_lookup_2; exact Hk).
    destruct (index_fields_present names 0 ∅ f Hin) as [k' [Hk' Hlook]].
    assert (k = k') as <- by (eapply NoDup_lookup; eassumption).
    unfold Query.getIndexByField, Query.execute. cbn [fields].
    rewrite Hlook. f_equal.
Qed.

Lemma sample_names_distinct : NoDup ["a"; "b"].
Proof.
  apply (bool_decide_unpack _). reflexivity.
Qed.

Lemma sample_name_undeclared : "c" ∉ ["a"; "b"].
Proof.
  apply (bool_decide_unpack _). reflexivity.
Qed.

Lemma getIndexByField_declared_names_witness :
  getIndexByField Sample.heap_ab Sample.row_ab "b" = Ret 1
  /\ (exists message,
         Query.getIndexByField Sample.query_ab "c" = Throw (EField message)).
Proof.
  destruct (getIndexByField_declared_names Sample.heap_ab 0%nat
              "SELECT a, b FROM t" ["a"; "b"] [[Some "x"; None]]
              Sample.query_ab Sample.row_ab eq_refl eq_refl)
    as [Hrow [Hunknown [_ [_ [_ Hpos]]]]].
  split.
  - rewrite Hrow. apply (Hpos sample_names_distinct 1%nat "b").
    reflexivity.
  - apply Hunknown. exact sample_name_undeclared.
Defined.

(** ** Query: the cursor *)

(** C7.  On a query with a remaining record, [peekRow] returns the current
    record and leaves the query as it is; a following [getRow] returns the
    same row and moves the cursor one record on; [skipRow] returns no value
    and moves the cursor one record on, leaving the buffer, the field index
    and the request untouched. *)
Theorem peekRow_then_getRow (q : _Query) :
  Query.hasNextRow q = true ->
  exists r : Row,
    rows q !! rowPosition q = Some (row r)
    /\ Query.peekRow q = Ret (r, q)
    /\ (let* p := Query.peekRow q in
        let* g := Query.getRow (snd p) in
        Ret (fst p, fst g, snd g)) = Ret (r, r, Query.advance q)
    /\ Query.skipRow q = Ret (tt, Query.advance q)
    /\ rowPosition (Query.advance q) = S (rowPosition q)
    /\ rows (Query.advance q) = rows q
    /\ fields (Query.advance q) = fields q
    /\ request (Query.advance q) = request q.
Proof.
  intros Hnext. unfold Query.hasNextRow in Hnext.
  apply bool_decide_eq_true in Hnext.
  destruct (lookup_lt_is_Some_2 (rows q) (rowPosition q) Hnext) as [rec Hrec].
  exists (mk_Row rec (sPtr q)).
  unfold Query.peekRow, Query.getRow, Query.skipRow.
  rewrite Hrec. cbn [bind fst snd row]. rewrite Hrec.
  repeat split.
Qed.

Lemma peekRow_then_getRow_witness :
  exists r : Row,
    rows Sample.query_ab !! rowPosition Sample.query_ab = Some (row r)
    /\ Query.peekRow Sample.query_ab = Ret (r, Sample.query_ab)
    /\ (let* p := Query.peekRow Sample.query_ab in
        let* g := Query.getRow (snd p) in
        Ret (fst p, fst g, snd g))
       = Ret (r, r, Query.advance Sample.query_ab)
    /\ Query.skipRow Sample.query_ab = Ret (tt, Query.advance Sample.query_ab)
    /\ rowPosition (Query.advance Sample.query_ab)
       = S (rowPosition Sample.query_ab)
    /\ rows (Query.advance Sample.query_ab) = rows Sample.query_ab
    /\ fields (Query.advance Sample.query_ab) = fields Sample.query_ab
    /\ request (Query.advance Sample.query_ab) = request Sample.query_ab.
Proof.
  apply (peekRow_then_getRow Sample.query_ab). reflexivity.
Defined.


(** ** BatchInsertStatement *)







(** "At least the threshold" and "a multiple of the threshold" are
    admissible readings too. *)
Lemma other_admissible_readings :
  Batch.admissible (fun n t => t <=? n)
  /\ Batch.admissible (fun n t => n mod t =? 0).
Proof.
  split; split.
  - intros n t Hlt. apply Z.leb_gt. lia.
  - intros t. apply Z.leb_refl.
  - intros n t Hlt. apply Z.eqb_neq. rewrite Z.mod_small; lia.
  - intros t. apply Z.eqb_eq.
    destruct (Z.eq_dec t 0) as [->|Hne]; [reflexivity|].
    now apply Z.mod_same.
Qed.



(** * Further properties of the accessors *)

(** ** Ranges of the integer accessors *)

Lemma uint_range (w z : Z) : 0 <= w -> 0 <= uint w z < 2 ^ w.
Proof.
  intros Hw. unfold uint. apply Z.mod_pos_bound. apply Z.pow_pos_nonneg; lia.
Qed.

Lemma sint_range (w z : Z) :
  0 < w -> - 2 ^ (w - 1) <= sint w z < 2 ^ (w - 1).
Proof.
  intros Hw. unfold sint. cbv zeta.
  assert (Hpow : 2 ^ w = 2 * 2 ^ (w - 1)).
  { replace w with (Z.succ (w - 1)) at 1 by lia. apply Z.pow_succ_r. lia. }
  assert (Hmod : 0 <= z mod 2 ^ w < 2 ^ w).
  { apply Z.mod_pos_bound. apply Z.pow_pos_nonneg; lia. }
  destruct (Z.ltb_spec (z mod 2 ^ w) (2 ^ (w - 1))); lia.
Qed.

Lemma digit_value_nonneg (c : ascii) (d : Z) :
  digit_value c = Some d -> 0 <= d.
Proof.
  unfold digit_value. cbv zeta.
  repeat match goal with
         | |- context [if ?b then _ else _] => destruct b eqn:?
         end; intros [= <-]; lia.
Qed.

Lemma digit_in_value (base : Z) (c : ascii) (d : Z) :
  digit_in base c = Some d -> digit_value c = Some d /\ 0 <= d < base.
Proof.
  unfold digit_in. destruct (digit_value c) as [x|] eqn:Hx; [|discriminate].
  destruct (Z.ltb_spec x base); [|discriminate].
  intros [= <-]. split; [reflexivity|].
  split; [exact (digit_value_nonneg c x Hx)|assumption].
Qed.

Lemma read_digits_nonneg (base : Z) (s : string) (acc : Z) :
  0 <= base -> 0 <= acc -> 0 <= fst (read_digits base s acc).
Proof.
  intros Hb. revert acc. induction s as [|c s IH]; intros acc Hacc.
  - exact Hacc.
  - cbn [read_digits]. destruct (digit_in base c) as [d|] eqn:Hd.
    + apply IH. apply digit_in_value in Hd as [_ Hd]. nia.
    + exact Hacc.
Qed.

Lemma select_base_auto (s : string) :
  fst (select_base 0 s) = 8 \/ fst (select_base 0 s) = 10
  \/ fst (select_base 0 s) = 16.
Proof.
  unfold select_base.
  change (0 =? 0) with true. change (0 =? 16) with false.
  repeat match goal with
         | |- context [match ?x with _ => _ end] => destruct x
         end; cbn; auto.
Qed.

Lemma scan_integer_nonneg (s : string) (neg : bool) (m : Z)
    (rest : string) :
  scan_integer 0 s = Some (neg, m, rest) -> 0 <= m.
Proof.
  unfold scan_integer.
  destruct (read_sign (skip_space s)) as [sg s1].
  destruct (select_base 0 s1) as [b s2] eqn:Hb.
  destruct (starts_with_digit b s2); [|discriminate].
  destruct (read_digits b s2 0) as [m' rest'] eqn:Hr.
  intros [= _ <- _].
  change m' with (fst (m', rest')). rewrite <- Hr.
  apply read_digits_nonneg; [|lia].
  pose proof (select_base_auto s1) as Hauto. rewrite Hb in Hauto.
  cbn [fst] in Hauto. lia.
Qed.

Lemma strtol_w_range (w : Z) (s : string) :
  0 < w -> - 2 ^ (w - 1) <= strtol_w w s 0 <= 2 ^ (w - 1) - 1.
Proof.
  intros Hw.
  assert (Hpos : 0 < 2 ^ (w - 1)) by (apply Z.pow_pos_nonneg; lia).
  unfold strtol_w.
  destruct (scan_integer 0 s) as [[[neg m] rest]|]; [|lia].
  cbv zeta.
  destruct (Z.ltb_spec (if neg then - m else m) (- 2 ^ (w - 1))); [lia|].
  destruct (Z.ltb_spec (2 ^ (w - 1) - 1) (if neg then - m else m)); lia.
Qed.

Lemma strtoul_w_range (w : Z) (s : string) :
  0 < w -> 0 <= strtoul_w w s 0 <= 2 ^ w - 1.
Proof.
  intros Hw.
  assert (Hpos : 0 < 2 ^ w) by (apply Z.pow_pos_nonneg; lia).
  unfold strtoul_w.
  destruct (scan_integer 0 s) as [[[neg m] rest]|] eqn:Hscan; [|lia].
  apply scan_integer_nonneg in Hscan.
  destruct (Z.ltb_spec (2 ^ w - 1) m); [lia|].
  destruct neg; [|lia].
  pose proof (uint_range w (- m) ltac:(lia)). lia.
Qed.

(** X1.  At a valid column, whether it is SQL NULL or holds any text at
    all, each of the six integer accessors returns a value, and the value
    lies in the range of its C type. *)
Theorem integer_accessors_in_range (r : Row) (i : Z) (f : option string) :
  0 <= i ->
  row r !! Z.to_nat i = Some f ->
  exists a b c d e g,
    getInt r i = Ret a /\ - 2 ^ 31 <= a <= 2 ^ 31 - 1
    /\ getUnsignedInt r i = Ret b /\ 0 <= b <= 2 ^ 32 - 1
    /\ getShort r i = Ret c /\ - 2 ^ 15 <= c <= 2 ^ 15 - 1
    /\ getUnsignedShort r i = Ret d /\ 0 <= d <= 2 ^ 16 - 1
    /\ getLongLong r i = Ret e /\ - 2 ^ 63 <= e <= 2 ^ 63 - 1
    /\ getUnsignedLongLong r i = Ret g /\ 0 <= g <= 2 ^ 64 - 1.
Proof.
  intros Hi Hf.
  unfold getInt, getUnsignedInt, getShort, getUnsignedShort, getLongLong,
    getUnsignedLongLong.
  rewrite (at_valid r i f Hi Hf). cbn [bind].
  destruct f as [s|].
  - pose proof (sint_range 32 (strtol s 0) ltac:(lia)) as H32.
    pose proof (sint_range 16 (strtol s 0) ltac:(lia)) as H16.
    pose proof (uint_range 32 (strtoul s 0) ltac:(lia)) as U32.
    pose proof (uint_range 16 (strtoul s 0) ltac:(lia)) as U16.
    pose proof (strtol_w_range 64 s ltac:(lia)) as L64.
    pose proof (strtoul_w_range 64 s ltac:(lia)) as UL64.
    change (32 - 1) with 31 in H32. change (16 - 1) with 15 in H16.
    change (64 - 1) with 63 in L64.
    eexists _, _, _, _, _, _.
    repeat (split; [reflexivity|]).
    unfold strtoll, strtoull. repeat split; lia.
  - exists 0, 0, 0, 0, 0, 0. repeat split; lia.
Qed.

Lemma integer_accessors_in_range_witness :
  exists a b c d e g,
    getInt Sample.row_n 0 = Ret a /\ - 2 ^ 31 <= a <= 2 ^ 31 - 1
    /\ getUnsignedInt Sample.row_n 0 = Ret b /\ 0 <= b <= 2 ^ 32 - 1
    /\ getShort Sample.row_n 0 = Ret c /\ - 2 ^ 15 <= c <= 2 ^ 15 - 1
    /\ getUnsignedShort Sample.row_n 0 = Ret d /\ 0 <= d <= 2 ^ 16 - 1
    /\ getLongLong Sample.row_n 0 = Ret e /\ - 2 ^ 63 <= e <= 2 ^ 63 - 1
    /\ getUnsignedLongLong Sample.row_n 0 = Ret g /\ 0 <= g <= 2 ^ 64 - 1.
Proof.
  apply (integer_accessors_in_range Sample.row_n 0
           (Some "9223372036854775808")); [lia|reflexivity].
Defined.

(** ** How the accessors relate *)

Lemma sint_16_32 (z : Z) : sint 16 (sint 32 z) = sint 16 z.
Proof.
  assert (Hlow : sint 32 z mod 2 ^ 16 = z mod 2 ^ 16).
  { unfold sint. cbv zeta.
    destruct (z mod 2 ^ 32 <? 2 ^ (32 - 1)).
    - apply Z.mod_mod_divide. exists (2 ^ 16). reflexivity.
    - replace (z mod 2 ^ 32 - 2 ^ 32)
        with (z mod 2 ^ 32 + (- 2 ^ 16) * 2 ^ 16) by lia.
      rewrite Z.mod_add by lia.
      apply Z.mod_mod_divide. exists (2 ^ 16). reflexivity. }
  unfold sint at 1 3. cbv zeta. now rewrite Hlow.
Qed.

Lemma uint_16_32 (z : Z) : uint 16 (uint 32 z) = uint 16 z.
Proof.
  unfold uint. apply Z.mod_mod_divide. exists (2 ^ 16). reflexivity.
Qed.

(** X2.  For every row and index, the narrow integer accessors are the
    wide ones truncated: [getInt] is [getLongLong] cut to 32 bits,
    [getShort] is [getInt] cut to 16 bits, and likewise for the unsigned
    accessors (with a [long] of 64 bits). *)
Theorem narrow_accessors_truncate (r : Row) (i : Z) :
  getInt r i = (let* v := getLongLong r i in Ret (sint 32 v))
  /\ getShort r i = (let* v := getInt r i in Ret (sint 16 v))
  /\ getUnsignedInt r i
     = (let* v := getUnsignedLongLong r i in Ret (uint 32 v))
  /\ getUnsignedShort r i
     = (let* v := getUnsignedInt r i in Ret (uint 16 v)).
Proof.
  unfold getInt, getShort, getUnsignedInt, getUnsignedShort, getLongLong,
    getUnsignedLongLong.
  destruct (at_ r i) as [[s|]| |]; cbn [bind]; repeat split.
  - now rewrite sint_16_32.
  - now rewrite uint_16_32.
Qed.

(** X3.  [isFieldNull] decides the nullable accessors other than
    [getNullableChar]: where it answers true each of them returns absent,
    and where it answers false each of them returns, as a present value,
    whatever its non-nullable counterpart returns (or fails as the
    counterpart does). *)
Theorem isFieldNull_decides_nullable (float double : Type)
    (float_zero : float) (sscanf_f : string -> option float)
    (atof : string -> double) (mktime : tm -> Z) (r : Row) (i : Z) :
  (isFieldNull r i = Ret true ->
   getNullableInt r i = Ret None
   /\ getNullableUnsignedInt r i = Ret None
   /\ getNullableShort r i = Ret None
   /\ getNullableUnsignedShort r i = Ret None
   /\ getNullableLongLong r i = Ret None
   /\ getNullableUnsignedLongLong r i = Ret None
   /\ getNullableString r i = Ret None
   /\ getNullableFloat float float_zero sscanf_f r i = Ret None
   /\ getNullableDouble double atof r i = Ret None
   /\ getNullableTimestamp mktime r i = Ret None)
  /\
  (isFieldNull r i = Ret false ->
   getNullableInt r i = (let* v := getInt r i in Ret (Some v))
   /\ getNullableUnsignedInt r i
      = (let* v := getUnsignedInt r i in Ret (Some v))
   /\ getNullableShort r i = (let* v := getShort r i in Ret (Some v))
   /\ getNullableUnsignedShort r i
      = (let* v := getUnsignedShort r i in Ret (Some v))
   /\ getNullableLongLong r i = (let* v := getLongLong r i in Ret (Some v))
   /\ getNullableUnsignedLongLong r i
      = (let* v := getUnsignedLongLong r i in Ret (Some v))
   /\ getNullableString r i = (let* v := getString r i in Ret (Some v))
   /\ getNullableFloat float float_zero sscanf_f r i
      = (let* v := getFloat float float_zero sscanf_f r i in Ret (Some v))
   /\ getNullableDouble double atof r i
      = (let* v := getDouble double atof r i in Ret (Some v))
   /\ getNullableTimestamp mktime r i
      = (let* v := getTimestamp mktime r i in Ret (Some v))).
Proof.
  unfold isFieldNull.
  destruct (at_ r i) as [[s|]| |] eqn:Hat; cbn [bind];
    split; intros Hnull; try discriminate Hnull;
    unfold getNullableInt, getNullableUnsignedInt, getNullableShort,
      getNullableUnsignedShort, getNullableLongLong,
      getNullableUnsignedLongLong, getNullableString, getNullableFloat,
      getNullableDouble, getNullableTimestamp, getLongLong,
      getUnsignedLongLong, getString;
    rewrite Hat; cbn [bind to_std_string]; repeat split.
Qed.

Lemma isFieldNull_decides_nullable_witness :
  getNullableInt Sample.row_ab 1 = Ret None
  /\ getNullableString Sample.row_ab 0 = Ret (Some "x").
Proof.
  split.
  - apply (proj1 (isFieldNull_decides_nullable unit unit tt
                    (fun _ => None) (fun _ => tt) (fun _ => 0)
                    Sample.row_ab 1) eq_refl).
  - apply (proj2 (isFieldNull_decides_nullable unit unit tt
                    (fun _ => None) (fun _ => tt) (fun _ => 0)
                    Sample.row_ab 0) eq_refl).
Defined.

(** X4.  For every row and name, the subscript by name is
    [getNullableString] by name with absent replaced by the empty string,
    failures included.  For every row and index, [getString] and the
    subscript by index return the same, and [getNullableString] returns a
    present text exactly when [getString] returns that text. *)
Theorem subscript_and_string_accessors heap (r : Row) :
  (forall f,
      subscript_name heap r f
      = (let* o := getNullableString_name heap r f in
         Ret (match o with Some s => s | None => "" end)))
  /\ (forall i, getString r i = subscript r i)
  /\ (forall i s, getNullableString r i = Ret (Some s)
                  <-> getString r i = Ret s).
Proof.
  split; [|split].
  - intros f. unfold subscript_name, getNullableString_name,
      getNullableString.
    destruct (getIndexByField heap r f) as [i| |]; cbn [bind];
      [|reflexivity|reflexivity].
    destruct (at_ r i) as [[s|]| |]; reflexivity.
  - reflexivity.
  - intros i s. unfold getNullableString, getString.
    destruct (at_ r i) as [[t|]| |]; cbn [bind to_std_string];
      split; intros H; try discriminate H; congruence.
Qed.



(** ** Reading runs of digits *)

Import Digits.

Lemma append_cons (c : ascii) (a b : string) :
  String c a +:+ b = String c (a +:+ b).
Proof. reflexivity. Qed.

Lemma append_empty_l (b : string) : "" +:+ b = b.
Proof. reflexivity. Qed.

Lemma sint_small (w z : Z) :
  0 < w -> - 2 ^ (w - 1) <= z < 2 ^ (w - 1) -> sint w z = z.
Proof.
  intros Hw Hz. unfold sint. cbv zeta.
  assert (Hpow : 2 ^ w = 2 * 2 ^ (w - 1)).
  { replace w with (Z.succ (w - 1)) at 1 by lia. apply Z.pow_succ_r. lia. }
  destruct (Z.lt_ge_cases z 0) as [Hneg|Hpos].
  - replace (z mod 2 ^ w) with (z + 2 ^ w).
    + destruct (Z.ltb_spec (z + 2 ^ w) (2 ^ (w - 1))); lia.
    + symmetry. rewrite <- (Z.mod_add z 1 (2 ^ w)) by lia.
      rewrite Z.mul_1_l. apply Z.mod_small. lia.
  - rewrite Z.mod_small by lia.
    destruct (Z.ltb_spec z (2 ^ (w - 1))); lia.
Qed.

Lemma uint_small (w z : Z) : 0 <= z < 2 ^ w -> uint w z = z.
Proof.
  intros Hz. unfold uint. now apply Z.mod_small.
Qed.

Lemma read_digits_stop (base : Z) (rest : string) (acc : Z) :
  starts_with_digit base rest = false ->
  read_digits base rest acc = (acc, rest).
Proof.
  destruct rest as [|c rest]; [reflexivity|].
  cbn [starts_with_digit read_digits].
  destruct (digit_in base c); [discriminate|reflexivity].
Qed.

(** A run of digits followed by something that is not a digit is read
    whole, and its value is positional. *)
Lemma read_digits_number (base : Z) (d rest : string) (acc : Z) :
  all_digits base d = true ->
  starts_with_digit base rest = false ->
  read_digits base (d +:+ rest) acc
  = (acc * base ^ Z.of_nat (String.length d) + digits_value base d, rest).
Proof.
  intros Hd Hrest. revert acc Hd.
  induction d as [|c d IH]; intros acc Hd.
  - rewrite append_empty_l, (read_digits_stop base rest acc Hrest).
    cbn [String.length digits_value]. f_equal. lia.
  - rewrite append_cons. cbn [all_digits] in Hd. cbn [read_digits].
    destruct (digit_in base c) as [x|] eqn:Hx; [|discriminate].
    apply digit_in_value in Hx as [Hval _].
    rewrite (IH _ Hd). cbn [String.length digits_value]. rewrite Hval.
    f_equal. rewrite Nat2Z.inj_succ, Z.pow_succ_r by lia. ring.
Qed.

Lemma digits_value_nonneg (base : Z) (d : string) :
  0 <= base -> 0 <= digits_value base d.
Proof.
  intros Hb. induction d as [|c d IH]; cbn [digits_value]; [lia|].
  destruct (digit_value c) as [x|] eqn:Hx; [|exact IH].
  apply digit_value_nonneg in Hx.
  assert (0 <= base ^ Z.of_nat (String.length d)) by (apply Z.pow_nonneg; lia).
  nia.
Qed.

Lemma is_number_inv (base : Z) (d : string) :
  is_number base d = true ->
  exists c d' x, d = String c d' /\ digit_in base c = Some x
                 /\ all_digits base d = true.
Proof.
  unfold is_number. intros H. apply andb_prop in H as [Hhead Hall].
  destruct d as [|c d']; [discriminate|].
  cbn [starts_with_digit] in Hhead.
  destruct (digit_in base c) as [x|] eqn:Hx; [|discriminate].
  exists c, d', x. auto.
Qed.

(** A digit is neither white space nor a sign. *)
Lemma digit_head_plain (c : ascii) (x : Z) (s : string) :
  digit_value c = Some x ->
  skip_space (String c s) = String c s
  /\ read_sign (String c s) = (false, String c s).
Proof.
  destruct c as [[] [] [] [] [] [] [] []]; intros H; vm_compute in H;
    try discriminate H; split; reflexivity.
Qed.

Lemma select_base_10 (s : string) : select_base 10 s = (10, s).
Proof.
  destruct s as [|c s]; [reflexivity|].
  destruct c as [[] [] [] [] [] [] [] []]; try reflexivity.
  destruct s as [|x s]; [reflexivity|].
  cbn [select_base]. change (10 =? 0) with false. change (10 =? 16) with false.
  cbn [orb]. now rewrite andb_false_r.
Qed.

Lemma select_base_decimal (c : ascii) (x : Z) (s s' : string) :
  digit_in 10 c = Some x ->
  leading_zero (String c s') = false ->
  select_base 0 (String c s) = (10, String c s).
Proof.
  destruct c as [[] [] [] [] [] [] [] []]; intros H Hz; vm_compute in H;
    try discriminate H; try discriminate Hz; reflexivity.
Qed.

Lemma select_base_octal (c : ascii) (x : Z) (s : string) :
  digit_in 8 c = Some x ->
  select_base 0 (String "0" (String c s)) = (8, String "0" (String c s)).
Proof.
  destruct c as [[] [] [] [] [] [] [] []]; intros H; vm_compute in H;
    try discriminate H; reflexivity.
Qed.

(** The subject sequence of a plain decimal number: with base 10, or with
    base 0 when the number has no leading zero. *)
Lemma scan_integer_decimal (base : Z) (d rest : string) :
  is_number 10 d = true ->
  starts_with_digit 10 rest = false ->
  base = 10 \/ (base = 0 /\ leading_zero d = false) ->
  scan_integer base (d +:+ rest) = Some (false, digits_value 10 d, rest).
Proof.
  intros Hd Hrest Hbase.
  destruct (is_number_inv 10 d Hd) as [c [d' [x [-> [Hx Hall]]]]].
  pose proof (proj1 (digit_in_value 10 c x Hx)) as Hval.
  unfold scan_integer. rewrite append_cons.
  destruct (digit_head_plain c x (d' +:+ rest) Hval) as [-> ->].
  cbv beta iota.
  assert (Hsel : select_base base (String c (d' +:+ rest))
                 = (10, String c (d' +:+ rest))).
  { destruct Hbase as [->|[-> Hz]].
    - apply select_base_10.
    - exact (select_base_decimal c x _ d' Hx Hz). }
  rewrite Hsel. cbv beta iota. cbn [starts_with_digit]. rewrite Hx.
  rewrite <- append_cons.
  rewrite (read_digits_number 10 (String c d') rest 0 Hall Hrest).
  do 2 f_equal.
Qed.

(** The same number after a minus sign. *)
Lemma scan_integer_negative (base : Z) (d rest : string) :
  is_number 10 d = true ->
  starts_with_digit 10 rest = false ->
  base = 10 \/ (base = 0 /\ leading_zero d = false) ->
  scan_integer base ("-" +:+ d +:+ rest)
  = Some (true, digits_value 10 d, rest).
Proof.
  intros Hd Hrest Hbase.
  destruct (is_number_inv 10 d Hd) as [c [d' [x [-> [Hx Hall]]]]].
  unfold scan_integer.
  change ("-" +:+ String c d' +:+ rest)
    with (String "-" (String c (d' +:+ rest))).
  change (skip_space (String "-" (String c (d' +:+ rest))))
    with (String "-" (String c (d' +:+ rest))).
  change (read_sign (String "-" (String c (d' +:+ rest))))
    with (true, String c (d' +:+ rest)).
  cbv beta iota.
  assert (Hsel : select_base base (String c (d' +:+ rest))
                 = (10, String c (d' +:+ rest))).
  { destruct Hbase as [->|[-> Hz]].
    - apply select_base_10.
    - exact (select_base_decimal c x _ d' Hx Hz). }
  rewrite Hsel. cbv beta iota. cbn [starts_with_digit]. rewrite Hx.
  rewrite <- append_cons.
  rewrite (read_digits_number 10 (String c d') rest 0 Hall Hrest).
  do 2 f_equal.
Qed.

Lemma select_base_prefix (p : ascii) (s : string) :
  select_base 0 (String "0" (String p s))
  = if is_x p && starts_with_digit 16 s
    then (16, s)
    else (8, String "0" (String p s)).
Proof.
  unfold select_base. change (0 =? 0) with true. cbn [orb].
  now rewrite andb_true_r.
Qed.

Lemma scan_integer_octal (d rest : string) :
  is_number 8 d = true ->
  starts_with_digit 8 rest = false ->
  scan_integer 0 ("0" +:+ d +:+ rest) = Some (false, digits_value 8 d, rest).
Proof.
  intros Hd Hrest.
  destruct (is_number_inv 8 d Hd) as [c [d' [x [-> [Hx Hall]]]]].
  unfold scan_integer.
  change ("0" +:+ String c d' +:+ rest)
    with (String "0" (String c (d' +:+ rest))).
  destruct (digit_head_plain "0" 0 (String c (d' +:+ rest)) eq_refl)
    as [-> ->].
  cbv beta iota. rewrite (select_base_octal c x _ Hx). cbv beta iota.
  change (starts_with_digit 8 (String "0" (String c (d' +:+ rest))))
    with true. cbv beta iota.
  change (String "0" (String c (d' +:+ rest)))
    with (String "0" (String c d') +:+ rest).
  rewrite (read_digits_number 8 (String "0" (String c d')) rest 0);
    [|exact Hall|exact Hrest].
  do 2 f_equal.
Qed.

Lemma scan_integer_hex (p : ascii) (d rest : string) :
  is_x p = true ->
  is_number 16 d = true ->
  starts_with_digit 16 rest = false ->
  scan_integer 0 (String "0" (String p (d +:+ rest)))
  = Some (false, digits_value 16 d, rest).
Proof.
  intros Hp Hd Hrest.
  assert (Hhead : starts_with_digit 16 (d +:+ rest) = true).
  { destruct (is_number_inv 16 d Hd) as [c [d' [x [-> [Hx _]]]]].
    rewrite append_cons. cbn [starts_with_digit]. now rewrite Hx. }
  assert (Hall : all_digits 16 d = true).
  { unfold is_number in Hd. now apply andb_prop in Hd as [_ Hd]. }
  unfold scan_integer.
  destruct (digit_head_plain "0" 0 (String p (d +:+ rest)) eq_refl)
    as [-> ->].
  cbv beta iota. rewrite select_base_prefix, Hp, Hhead. cbv beta iota.
  cbn [andb]. cbv beta iota. rewrite Hhead.
  rewrite (read_digits_number 16 d rest 0 Hall Hrest).
  do 2 f_equal.
Qed.

(** ** What the integer accessors read *)

(** X6.  A column whose text is a decimal number without a leading zero,
    followed by anything that does not start with a digit, reads back as
    that number: [getLongLong] and [getUnsignedLongLong] return it,
    saturated at the largest value of their type, and each narrower
    accessor returns it whenever it fits the accessor's type.  The trailing
    text is ignored. *)
Theorem decimal_text_read_back (r : Row) (i : Z) (d rest : string) :
  0 <= i ->
  row r !! Z.to_nat i = Some (Some (d +:+ rest)) ->
  is_number 10 d = true ->
  leading_zero d = false ->
  starts_with_digit 10 rest = false ->
  getLongLong r i = Ret (Z.min (digits_value 10 d) (2 ^ 63 - 1))
  /\ getUnsignedLongLong r i = Ret (Z.min (digits_value 10 d) (2 ^ 64 - 1))
  /\ (digits_value 10 d <= 2 ^ 31 - 1 ->
      getInt r i = Ret (digits_value 10 d))
  /\ (digits_value 10 d <= 2 ^ 32 - 1 ->
      getUnsignedInt r i = Ret (digits_value 10 d))
  /\ (digits_value 10 d <= 2 ^ 15 - 1 ->
      getShort r i = Ret (digits_value 10 d))
  /\ (digits_value 10 d <= 2 ^ 16 - 1 ->
      getUnsignedShort r i = Ret (digits_value 10 d)).
Proof.
  intros Hi Hrow Hd Hz Hrest.
  pose proof (digits_value_nonneg 10 d ltac:(lia)) as Hv.
  pose proof (scan_integer_decimal 0 d rest Hd Hrest
                (or_intror (conj eq_refl Hz))) as Hscan.
  unfold getLongLong, getUnsignedLongLong, getInt, getUnsignedInt, getShort,
    getUnsignedShort.
  rewrite (at_valid r i _ Hi Hrow). cbn [bind].
  unfold strtoll, strtoull, strtol, strtoul, LONG_BITS, strtol_w, strtoul_w.
  rewrite Hscan. cbv zeta. change (2 ^ (64 - 1)) with (2 ^ 63).
  destruct (Z.ltb_spec (digits_value 10 d) (- 2 ^ 63)); [lia|].
  destruct (Z.ltb_spec (2 ^ 63 - 1) (digits_value 10 d));
    destruct (Z.ltb_spec (2 ^ 64 - 1) (digits_value 10 d));
    (split; [f_equal; lia|]); (split; [f_equal; lia|]);
    repeat split; intros Hfit; try lia; f_equal;
    first [apply sint_small; cbn; lia | apply uint_small; lia].
Qed.

Lemma decimal_text_read_back_witness :
  getInt (mk_Row [Some "42 apples"] 0) 0 = Ret 42.
Proof.
  apply (decimal_text_read_back (mk_Row [Some "42 apples"] 0) 0
           "42" " apples");
    [lia | reflexivity | reflexivity | reflexivity | reflexivity
     | vm_compute; discriminate].
Defined.

(** X7.  A column whose text is a minus sign and a decimal number without
    a leading zero reads back negated through the signed accessors
    ([getLongLong] saturating at the smallest value), while the unsigned
    accessors do not reject it: they return the negated number wrapped
    into their type, so that a text from -1 down to -4294967296 read by
    [getUnsignedInt] gives 2^32 minus the number. *)
Theorem negative_text_read_back (r : Row) (i : Z) (d rest : string) :
  0 <= i ->
  row r !! Z.to_nat i = Some (Some ("-" +:+ d +:+ rest)) ->
  is_number 10 d = true ->
  leading_zero d = false ->
  starts_with_digit 10 rest = false ->
  getLongLong r i = Ret (Z.max (- digits_value 10 d) (- 2 ^ 63))
  /\ (digits_value 10 d <= 2 ^ 31 ->
      getInt r i = Ret (- digits_value 10 d))
  /\ (digits_value 10 d <= 2 ^ 64 - 1 ->
      getUnsignedLongLong r i = Ret (uint 64 (- digits_value 10 d))
      /\ getUnsignedInt r i = Ret (uint 32 (- digits_value 10 d)))
  /\ (1 <= digits_value 10 d <= 2 ^ 32 ->
      getUnsignedInt r i = Ret (2 ^ 32 - digits_value 10 d)).
Proof.
  intros Hi Hrow Hd Hz Hrest.
  pose proof (digits_value_nonneg 10 d ltac:(lia)) as Hv.
  pose proof (scan_integer_negative 0 d rest Hd Hrest
                (or_intror (conj eq_refl Hz))) as Hscan.
  unfold getLongLong, getUnsignedLongLong, getInt, getUnsignedInt.
  rewrite (at_valid r i _ Hi Hrow). cbn [bind].
  unfold strtoll, strtoull, strtol, strtoul, LONG_BITS, strtol_w, strtoul_w.
  rewrite Hscan. cbv zeta. change (2 ^ (64 - 1)) with (2 ^ 63).
  assert (Hwrap : 1 <= digits_value 10 d <= 2 ^ 32 ->
                  uint 32 (- digits_value 10 d) = 2 ^ 32 - digits_value 10 d).
  { intros Hsmall. unfold uint.
    rewrite <- (Z.mod_add (- digits_value 10 d) 1 (2 ^ 32)) by lia.
    rewrite Z.mod_small by lia. lia. }
  destruct (Z.ltb_spec (2 ^ 63 - 1) (- digits_value 10 d)); [lia|].
  split; [|split; [|split]].
  - destruct (Z.ltb_spec (- digits_value 10 d) (- 2 ^ 63)); f_equal; lia.
  - intros Hfit.
    destruct (Z.ltb_spec (- digits_value 10 d) (- 2 ^ 63)); [lia|].
    f_equal. apply sint_small; cbn; lia.
  - intros Hfit.
    destruct (Z.ltb_spec (2 ^ 64 - 1) (digits_value 10 d)); [lia|].
    split; [reflexivity|]. now rewrite uint_32_64.
  - intros Hsmall.
    destruct (Z.ltb_spec (2 ^ 64 - 1) (digits_value 10 d)); [lia|].
    rewrite uint_32_64. f_equal. exact (Hwrap Hsmall).
Qed.

Lemma negative_text_read_back_witness :
  getInt (mk_Row [Some "-1"] 0) 0 = Ret (-1)
  /\ getUnsignedInt (mk_Row [Some "-1"] 0) 0 = Ret 4294967295.
Proof.
  destruct (negative_text_read_back (mk_Row [Some "-1"] 0) 0 "1" ""
              ltac:(lia) eq_refl eq_refl eq_refl eq_refl)
    as [_ [Hint [_ Huint]]].
  split.
  - apply Hint. vm_compute. discriminate.
  - apply Huint. vm_compute. split; discriminate.
Defined.

(** X8.  The integer accessors pass base 0 to the C parser, so a leading
    zero changes the base: a column whose text is [0] followed by octal
    digits reads as that octal number, and one whose text is [0x] or [0X]
    followed by hexadecimal digits reads as that hexadecimal number. *)
Theorem prefixed_text_read_back (r : Row) (i : Z) (d rest : string) :
  0 <= i ->
  (row r !! Z.to_nat i = Some (Some ("0" +:+ d +:+ rest)) ->
   is_number 8 d = true ->
   starts_with_digit 8 rest = false ->
   getLongLong r i = Ret (Z.min (digits_value 8 d) (2 ^ 63 - 1))
   /\ (digits_value 8 d <= 2 ^ 31 - 1 ->
       getInt r i = Ret (digits_value 8 d)))
  /\
  (forall p, is_x p = true ->
   row r !! Z.to_nat i = Some (Some (String "0" (String p (d +:+ rest)))) ->
   is_number 16 d = true ->
   starts_with_digit 16 rest = false ->
   getLongLong r i = Ret (Z.min (digits_value 16 d) (2 ^ 63 - 1))
   /\ (digits_value 16 d <= 2 ^ 31 - 1 ->
       getInt r i = Ret (digits_value 16 d))).
Proof.
  intros Hi. split.
  - intros Hrow Hd Hrest.
    pose proof (digits_value_nonneg 8 d ltac:(lia)) as Hv.
    unfold getLongLong, getInt.
    rewrite (at_valid r i _ Hi Hrow). cbn [bind].
    unfold strtoll, strtol, LONG_BITS, strtol_w.
    rewrite (scan_integer_octal d rest Hd Hrest). cbv zeta.
    change (2 ^ (64 - 1)) with (2 ^ 63).
    destruct (Z.ltb_spec (digits_value 8 d) (- 2 ^ 63)); [lia|].
    destruct (Z.ltb_spec (2 ^ 63 - 1) (digits_value 8 d));
      (split; [f_equal; lia|]); intros Hfit; [lia|].
    f_equal. apply sint_small; cbn; lia.
  - intros p Hp Hrow Hd Hrest.
    pose proof (digits_value_nonneg 16 d ltac:(lia)) as Hv.
    unfold getLongLong, getInt.
    rewrite (at_valid r i _ Hi Hrow). cbn [bind].
    unfold strtoll, strtol, LONG_BITS, strtol_w.
    rewrite (scan_integer_hex p d rest Hp Hd Hrest). cbv zeta.
    change (2 ^ (64 - 1)) with (2 ^ 63).
    destruct (Z.ltb_spec (digits_value 16 d) (- 2 ^ 63)); [lia|].
    destruct (Z.ltb_spec (2 ^ 63 - 1) (digits_value 16 d));
      (split; [f_equal; lia|]); intros Hfit; [lia|].
    f_equal. apply sint_small; cbn; lia.
Qed.

Lemma prefixed_text_read_back_witness :
  getInt (mk_Row [Some "010"; Some "0x1F"] 0) 0 = Ret 8
  /\ getInt (mk_Row [Some "010"; Some "0x1F"] 0) 1 = Ret 31.
Proof.
  split.
  - apply (proj1 (prefixed_text_read_back
                    (mk_Row [Some "010"; Some "0x1F"] 0) 0 "10" ""
                    ltac:(lia)));
      [reflexivity | reflexivity | reflexivity | vm_compute; discriminate].
  - apply (proj2 (prefixed_text_read_back
                    (mk_Row [Some "010"; Some "0x1F"] 0) 1 "1F" ""
                    ltac:(lia)) "x"%char);
      [reflexivity | reflexivity | reflexivity | reflexivity
       | vm_compute; discriminate].
Defined.

(** ** What the timestamp accessors read *)

Lemma int_field_inv (d : string) :
  int_field d = true ->
  is_number 10 d = true /\ 0 <= digits_value 10 d <= INT_MAX.
Proof.
  unfold int_field. intros H. apply andb_prop in H as [Hnum Hfit].
  split; [exact Hnum|]. split.
  - apply digits_value_nonneg. lia.
  - now apply Z.leb_le.
Qed.

Lemma skip_space_number (d rest : string) :
  is_number 10 d = true -> skip_space (d +:+ rest) = d +:+ rest.
Proof.
  intros Hd.
  destruct (is_number_inv 10 d Hd) as [c [d' [x [-> [Hx _]]]]].
  rewrite append_cons.
  exact (proj1 (digit_head_plain c x _ (proj1 (digit_in_value 10 c x Hx)))).
Qed.

(** [%d] on a decimal number that fits [int]. *)
Lemma scan_d_number (d rest : string) :
  int_field d = true ->
  starts_with_digit 10 rest = false ->
  scan_d (d +:+ rest) = Matched (digits_value 10 d) rest.
Proof.
  intros Hd Hrest.
  apply int_field_inv in Hd as [Hnum Hfit]. unfold INT_MAX in Hfit.
  pose proof (scan_integer_decimal 10 d rest Hnum Hrest
                (or_introl eq_refl)) as Hscan.
  unfold scan_d. rewrite (skip_space_number d rest Hnum).
  destruct (is_number_inv 10 d Hnum) as [c [d' [x [Heq _]]]].
  rewrite Heq in Hscan |- *. rewrite append_cons in Hscan |- *.
  cbv beta iota. rewrite Hscan. cbv beta iota zeta.
  rewrite <- Heq.
  destruct (Z.ltb_spec (digits_value 10 d) (- 2 ^ 63)); [lia|].
  destruct (Z.ltb_spec (2 ^ 63 - 1) (digits_value 10 d)); [lia|].
  f_equal. apply sint_small; cbn; lia.
Qed.

Lemma run_format_conv (fmt : list directive) (d rest : string)
    (got : list Z) :
  int_field d = true ->
  starts_with_digit 10 rest = false ->
  run_format (Conv_d :: fmt) (d +:+ rest) got
  = run_format fmt rest (got ++ [digits_value 10 d]).
Proof.
  intros Hd Hrest. cbn [run_format].
  now rewrite (scan_d_number d rest Hd Hrest).
Qed.

Lemma run_format_lit (fmt : list directive) (c : ascii) (s : string)
    (got : list Z) :
  run_format (Lit c :: fmt) (String c s) got = run_format fmt s got.
Proof.
  cbn [run_format]. now rewrite Ascii.eqb_refl.
Qed.

(** The date part: three numbers separated by dashes. *)
Lemma run_format_date (fmt : list directive) (y mo dd rest : string) :
  int_field y = true -> int_field mo = true -> int_field dd = true ->
  starts_with_digit 10 rest = false ->
  run_format (Conv_d :: Lit "-" :: Conv_d :: Lit "-" :: Conv_d :: fmt)
    (y +:+ "-" +:+ mo +:+ "-" +:+ dd +:+ rest) []
  = run_format fmt rest
      [digits_value 10 y; digits_value 10 mo; digits_value 10 dd].
Proof.
  intros Hy Hmo Hdd Hrest.
  rewrite (run_format_conv _ y ("-" +:+ mo +:+ "-" +:+ dd +:+ rest) _
             Hy eq_refl).
  change ("-" +:+ mo +:+ "-" +:+ dd +:+ rest)
    with (String "-" (mo +:+ "-" +:+ dd +:+ rest)).
  rewrite run_format_lit.
  rewrite (run_format_conv _ mo ("-" +:+ dd +:+ rest) _ Hmo eq_refl).
  change ("-" +:+ dd +:+ rest) with (String "-" (dd +:+ rest)).
  rewrite run_format_lit.
  rewrite (run_format_conv _ dd _ _ Hdd Hrest).
  reflexivity.
Qed.

Lemma sscanf_timestamp_wellformed (y mo dd h mi s rest : string) :
  int_field y = true -> int_field mo = true -> int_field dd = true ->
  int_field h = true -> int_field mi = true -> int_field s = true ->
  starts_with_digit 10 rest = false ->
  sscanf (y +:+ "-" +:+ mo +:+ "-" +:+ dd +:+ " "
          +:+ h +:+ ":" +:+ mi +:+ ":" +:+ s +:+ rest) timestamp_format
  = (6, [digits_value 10 y; digits_value 10 mo; digits_value 10 dd;
         digits_value 10 h; digits_value 10 mi; digits_value 10 s]).
Proof.
  intros Hy Hmo Hdd Hh Hmi Hs Hrest.
  unfold sscanf, timestamp_format.
  rewrite (run_format_date _ y mo dd
             (" " +:+ h +:+ ":" +:+ mi +:+ ":" +:+ s +:+ rest)
             Hy Hmo Hdd eq_refl).
  cbn [run_format].
  change (skip_space (" " +:+ h +:+ ":" +:+ mi +:+ ":" +:+ s +:+ rest))
    with (skip_space (h +:+ ":" +:+ mi +:+ ":" +:+ s +:+ rest)).
  rewrite (skip_space_number h _ (proj1 (int_field_inv h Hh))).
  rewrite (scan_d_number h (":" +:+ mi +:+ ":" +:+ s +:+ rest) Hh eq_refl).
  change (":" +:+ mi +:+ ":" +:+ s +:+ rest)
    with (String ":" (mi +:+ ":" +:+ s +:+ rest)).
  cbv beta iota. rewrite Ascii.eqb_refl.
  rewrite (scan_d_number mi (":" +:+ s +:+ rest) Hmi eq_refl).
  change (":" +:+ s +:+ rest) with (String ":" (s +:+ rest)).
  cbv beta iota. rewrite Ascii.eqb_refl.
  rewrite (scan_d_number s _ Hs Hrest).
  reflexivity.
Qed.

(** X9.  A column whose text is six decimal numbers that fit [int], laid
    out as year-month-day, a space, hour:minute:second, and followed by
    anything that does not start with a digit, is handed to [mktime] as
    the broken-down time with the year counted from 1900, the month from
    0, every other member as written, and [tm_isdst] -1.  No member is
    checked against a calendar range, and the trailing text is ignored. *)
Theorem timestamp_text_decoded (mktime : tm -> Z) (r : Row) (i : Z)
    (y mo dd h mi s rest : string) :
  0 <= i ->
  row r !! Z.to_nat i
  = Some (Some (y +:+ "-" +:+ mo +:+ "-" +:+ dd +:+ " "
                +:+ h +:+ ":" +:+ mi +:+ ":" +:+ s +:+ rest)) ->
  int_field y = true -> int_field mo = true -> int_field dd = true ->
  int_field h = true -> int_field mi = true -> int_field s = true ->
  starts_with_digit 10 rest = false ->
  let t := {| tm_sec := digits_value 10 s;
              tm_min := digits_value 10 mi;
              tm_hour := digits_value 10 h;
              tm_mday := digits_value 10 dd;
              tm_mon := digits_value 10 mo - 1;
              tm_year := digits_value 10 y - 1900;
              tm_wday := 0; tm_yday := 0; tm_isdst := -1 |} in
  getTimestamp mktime r i = Ret (mktime t)
  /\ getNullableTimestamp mktime r i = Ret (Some (mktime t)).
Proof.
  intros Hi Hrow Hy Hmo Hdd Hh Hmi Hs Hrest t.
  assert (Ht : getTimestamp mktime r i = Ret (mktime t)).
  { unfold getTimestamp. rewrite (at_valid r i _ Hi Hrow). cbn [bind].
    rewrite (sscanf_timestamp_wellformed y mo dd h mi s rest
               Hy Hmo Hdd Hh Hmi Hs Hrest).
    cbv beta iota. change (negb (6 =? 6)) with false. cbv beta iota.
    apply int_field_inv in Hy as [_ Hy]. apply int_field_inv in Hmo as [_ Hmo].
    unfold INT_MIN.
    destruct (Z.ltb_spec (digits_value 10 mo - 1) (- 2 ^ 31)); [lia|].
    destruct (Z.ltb_spec (digits_value 10 y - 1900) (- 2 ^ 31)); [lia|].
    reflexivity. }
  split; [exact Ht|].
  unfold getNullableTimestamp. rewrite (at_valid r i _ Hi Hrow).
  cbn [bind]. now rewrite Ht.
Qed.

Lemma timestamp_text_decoded_witness :
  getTimestamp tm_sec (mk_Row [Some "2007-01-26 10:00:09.5"] 0) 0 = Ret 9.
Proof.
  apply (timestamp_text_decoded tm_sec
           (mk_Row [Some "2007-01-26 10:00:09.5"] 0) 0
           "2007" "01" "26" "10" "00" "09" ".5");
    [lia | reflexivity | reflexivity | reflexivity | reflexivity
     | reflexivity | reflexivity | reflexivity | reflexivity].
Defined.

(** X10.  A column that holds a date without a time of day (three numbers
    separated by dashes, then at most white space) gives three values
    under the scan, not six: [getTimestamp] returns 0 and
    [getNullableTimestamp] a present 0, not midnight of that day. *)
Theorem date_without_time_is_epoch (mktime : tm -> Z) (r : Row) (i : Z)
    (y mo dd rest : string) :
  0 <= i ->
  row r !! Z.to_nat i = Some (Some (y +:+ "-" +:+ mo +:+ "-" +:+ dd +:+ rest)) ->
  int_field y = true -> int_field mo = true -> int_field dd = true ->
  skip_space rest = "" ->
  getTimestamp mktime r i = Ret 0
  /\ getNullableTimestamp mktime r i = Ret (Some 0).
Proof.
  intros Hi Hrow Hy Hmo Hdd Hblank.
  assert (Hrest : starts_with_digit 10 rest = false).
  { destruct rest as [|c rest]; [reflexivity|].
    cbn [starts_with_digit].
    destruct (digit_in 10 c) as [x|] eqn:Hx; [|reflexivity].
    apply digit_in_value in Hx as [Hx _].
    rewrite (proj1 (digit_head_plain c x rest Hx)) in Hblank.
    discriminate Hblank. }
  assert (Hscan : fst (sscanf (y +:+ "-" +:+ mo +:+ "-" +:+ dd +:+ rest)
                         timestamp_format) <> 6).
  { unfold sscanf, timestamp_format.
    rewrite (run_format_date _ y mo dd rest Hy Hmo Hdd Hrest).
    cbn [run_format]. unfold scan_d.
    assert (Htwice : skip_space (skip_space rest) = "")
      by now rewrite Hblank.
    rewrite Htwice. cbn. discriminate. }
  assert (Ht : getTimestamp mktime r i = Ret 0)
    by exact (getTimestamp_unmatched mktime r i _ Hi Hrow Hscan).
  split; [exact Ht|].
  unfold getNullableTimestamp. rewrite (at_valid r i _ Hi Hrow).
  cbn [bind]. now rewrite Ht.
Qed.

Lemma date_without_time_is_epoch_witness :
  getTimestamp tm_sec (mk_Row [Some "2007-01-26"] 0) 0 = Ret 0.
Proof.
  apply (date_without_time_is_epoch tm_sec (mk_Row [Some "2007-01-26"] 0) 0
           "2007" "01" "26" "");
    [lia | reflexivity | reflexivity | reflexivity | reflexivity
     | reflexivity].
Defined.

(** ** Row: the allocation counters *)

Lemma constructions_nonneg (events : list RowStats.event) :
  0 <= RowStats.constructions events /\ 0 <= RowStats.destructions events.
Proof.
  induction events as [|e events [IHc IHd]]; cbn; [lia|].
  destruct (RowStats.is_construction e); lia.
Qed.

(** X11.  Along any sequence of constructions (by any of the three
    constructors) and destructions of rows, as long as neither counter
    passes [INT_MAX], the allocation counter has grown by the number of
    constructions and the deallocation counter by the number of
    destructions; starting from non-negative counters, [getRemainder] then
    returns the earlier difference plus constructions minus destructions. *)
Theorem counters_track_rows (c : RowStats.counters)
    (events : list RowStats.event) :
  RowStats.numberOfAllocations c + RowStats.constructions events <= INT_MAX ->
  RowStats.numberOfDeallocations c + RowStats.destructions events
  <= INT_MAX ->
  exists c',
    RowStats.run c events = Ret c'
    /\ RowStats.getNumberOfAllocations c'
       = RowStats.numberOfAllocations c + RowStats.constructions events
    /\ RowStats.getNumberOfDeallocations c'
       = RowStats.numberOfDeallocations c + RowStats.destructions events
    /\ (0 <= RowStats.numberOfAllocations c ->
        0 <= RowStats.numberOfDeallocations c ->
        RowStats.getRemainder c'
        = Ret (RowStats.numberOfAllocations c
               - RowStats.numberOfDeallocations c
               + RowStats.constructions events
               - RowStats.destructions events)).
Proof.
  revert c. induction events as [|e events IH]; intros c Ha Hd.
  - exists c.
    cbn [RowStats.run RowStats.constructions RowStats.destructions] in *.
    unfold RowStats.getNumberOfAllocations,
      RowStats.getNumberOfDeallocations, RowStats.getRemainder.
    repeat split; try lia.
    intros Ha0 Hd0. unfold INT_MAX, INT_MIN in *. cbv zeta.
    destruct (Z.ltb_spec (RowStats.numberOfAllocations c
                          - RowStats.numberOfDeallocations c) (- 2 ^ 31));
      [lia|].
    destruct (Z.ltb_spec (2 ^ 31 - 1)
                (RowStats.numberOfAllocations c
                 - RowStats.numberOfDeallocations c)); [lia|].
    cbn [orb]. f_equal. lia.
  - destruct (constructions_nonneg events) as [Hc0 Hd0].
    cbn [RowStats.run RowStats.constructions RowStats.destructions] in *.
    unfold RowStats.step, RowStats.increment.
    destruct (RowStats.is_construction e).
    + destruct (Z.leb_spec INT_MAX (RowStats.numberOfAllocations c)); [lia|].
      cbn [bind].
      destruct (IH (RowStats.mk_counters (RowStats.numberOfAllocations c + 1)
                      (RowStats.numberOfDeallocations c)))
        as [c' [Hrun [Hal [Hde Hrem]]]];
        cbn [RowStats.numberOfAllocations RowStats.numberOfDeallocations] in *;
        try lia.
      exists c'. split; [exact Hrun|].
      split; [lia|]. split; [lia|].
      intros Ha1 Hd1. rewrite Hrem by lia. f_equal. lia.
    + destruct (Z.leb_spec INT_MAX (RowStats.numberOfDeallocations c));
        [lia|].
      cbn [bind].
      destruct (IH (RowStats.mk_counters (RowStats.numberOfAllocations c)
                      (RowStats.numberOfDeallocations c + 1)))
        as [c' [Hrun [Hal [Hde Hrem]]]];
        cbn [RowStats.numberOfAllocations RowStats.numberOfDeallocations] in *;
        try lia.
      exists c'. split; [exact Hrun|].
      split; [lia|]. split; [lia|].
      intros Ha1 Hd1. rewrite Hrem by lia. f_equal. lia.
Qed.

Lemma counters_track_rows_witness :
  exists c',
    RowStats.run (RowStats.mk_counters 0 0)
      [RowStats.Bound_constructed; RowStats.Copy_constructed;
       RowStats.Destroyed] = Ret c'
    /\ RowStats.getRemainder c' = Ret 1.
Proof.
  destruct (counters_track_rows (RowStats.mk_counters 0 0)
              [RowStats.Bound_constructed; RowStats.Copy_constructed;
               RowStats.Destroyed])
    as [c' [Hrun [_ [_ Hrem]]]];
    [vm_compute; discriminate | vm_compute; discriminate |].
  exists c'. split; [exact Hrun|].
  apply Hrem; cbn; lia.
Defined.

(** ** The two forms of the nullable unsigned accessor, where they agree *)

(** X12.  When the lookup of a field name returns a valid column, the
    field-name form and the index form of [getNullableUnsignedInt] both
    return absent on SQL NULL, and on every text on which [strtol] does not
    saturate both return, as a present value, the low 32 bits of what
    [strtoul] reads. *)
Theorem nullable_unsigned_forms_agree_unsaturated heap (r : Row)
    (f : string) (i : Z) :
  getIndexByField heap r f = Ret i ->
  0 <= i ->
  (row r !! Z.to_nat i = Some None ->
   getNullableUnsignedInt_name heap r f = Ret None
   /\ getNullableUnsignedInt r i = Ret None)
  /\
  (forall s, row r !! Z.to_nat i = Some (Some s) ->
             - 2 ^ 63 < strtol s 0 < 2 ^ 63 - 1 ->
             getNullableUnsignedInt_name heap r f
             = Ret (Some (uint 32 (strtoul s 0)))
             /\ getNullableUnsignedInt r i
                = Ret (Some (uint 32 (strtoul s 0)))).
Proof.
  intros Hidx Hi.
  unfold getNullableUnsignedInt_name, getNullableUnsignedInt,
    getNullableInt, getInt, getUnsignedInt.
  rewrite Hidx. cbn [bind]. split.
  - intros Hnull. now rewrite (at_valid r i None Hi Hnull).
  - intros s Hs Hrange. rewrite (at_valid r i (Some s) Hi Hs).
    cbn [bind fmap option_fmap option_map].
    now rewrite (strtol_strtoul_low_bits s Hrange).
Qed.

Lemma nullable_unsigned_forms_agree_unsaturated_witness :
  (getNullableUnsignedInt_name Sample.heap_wide Sample.row_wide "n"
   = Ret (Some 4294967291)
   /\ getNullableUnsignedInt Sample.row_wide 0 = Ret (Some 4294967291))
  /\ (getNullableUnsignedInt_name Sample.heap_wide Sample.row_wide "m"
      = Ret None
      /\ getNullableUnsignedInt Sample.row_wide 1 = Ret None).
Proof.
  split.
  - apply (proj2 (nullable_unsigned_forms_agree_unsaturated Sample.heap_wide
                    Sample.row_wide "n" 0 ltac:(reflexivity) ltac:(lia))
             "-4294967301");
      [reflexivity | vm_compute; split; reflexivity].
  - apply (proj1 (nullable_unsigned_forms_agree_unsaturated Sample.heap_wide
                    Sample.row_wide "m" 1 ltac:(reflexivity) ltac:(lia)));
      reflexivity.
Defined.
